(** * keycloak-gatekeeper: cookies, forwarding credentials, identity extraction

    A shallow embedding of [cookies.go], [forwarding.go] (with the identity
    extractor that follows it) and [errors.go], and the properties of the
    session credential transport and renewal subsystem proved over it.

    Conventions of the embedding.
    - A Go [string] is a Stdlib [string]: a sequence of bytes (one [ascii]
      per byte); [len] is its byte length.
    - A Go [int] is a [Z].  Every integer computed below is a string length,
      a difference of string lengths and small constants, or a loop index
      bounded by a string length plus one stride, so 64-bit wrap-around
      never occurs on values that fit in memory; it is not modelled.
    - [time.Time] and [time.Duration] are [Z] (nanoseconds); the zero
      [time.Time] of an [Expires] field that was never assigned is [None].
    - A run-time panic is an explicit outcome, never a stuck term. *)

From Stdlib Require Import ZArith String List Lia Ascii Bool Arith FinFun.
From Stdlib Require Import DecimalString DecimalZ.
Import ListNotations.

Set Warnings "-register-all".

Open Scope string_scope.
Open Scope Z_scope.

(** ** Go primitives used by the three files *)

Module Go.

(** [len(s)] *)
Definition len (s : string) : Z := Z.of_nat (String.length s).

(** The run-time panics the modelled code can raise. *)
Inductive panic : Type :=
| SliceBoundsOutOfRange
| IntegerDivideByZero
| NilPointerDereference.

(** [s[i:j]] on a string: panics unless [0 <= i <= j <= len(s)]. *)
Definition slice (s : string) (i j : Z) : option string :=
  if (0 <=? i) && (i <=? j) && (j <=? len s)
  then Some (substring (Z.to_nat i) (Z.to_nat (j - i)) s)
  else None.

(** [strconv.Itoa] *)
Definition Itoa (z : Z) : string := NilZero.string_of_int (Z.to_int z).

(** [a / b] on ints: truncated division, panics on a zero divisor. *)
Definition div (a b : Z) : option Z :=
  if b =? 0 then None else Some (Z.quot a b).

(** [strings.Split(s, ":")[0]]: the bytes of [s] before its first colon,
    all of [s] when it has none. *)
Fixpoint beforeColon (s : string) : string :=
  match s with
  | EmptyString => EmptyString
  | String c rest =>
      if Ascii.eqb c ":"%char then EmptyString else String c (beforeColon rest)
  end.

(** [strings.HasPrefix(s, p)] *)
Definition HasPrefix (s p : string) : bool := String.prefix p s.

(** [strings.Join(l, sep)] *)
Definition Join (l : list string) (sep : string) : string := String.concat sep l.

Definition Time := Z.
Definition Duration := Z.
Definition Hour : Duration := 3600 * 1000000000.
Definition Second : Duration := 1000000000.

(** [t.Add(d)] *)
Definition Add (t : Time) (d : Duration) : Time := t + d.

End Go.

Import Go.

(** ** net/http values *)

(** [http.SameSite]; the zero value has no name in Go and makes
    [http.SetCookie] write no [SameSite] attribute at all. *)
Inductive SameSite : Type :=
| SameSiteUnset
| SameSiteDefaultMode
| SameSiteLaxMode
| SameSiteStrictMode
| SameSiteNoneMode.

(** The fields of [http.Cookie] the proxy assigns; the others keep their
    zero value throughout. *)
Record Cookie : Type := mkCookie {
  Name : string;
  Value : string;
  Path : string;
  Domain : string;
  Expires : option Time;
  Secure : bool;
  HttpOnly : bool;
  CookieSameSite : SameSite
}.

Definition withNameValue (c : Cookie) (name value : string) : Cookie :=
  mkCookie name value (Path c) (Domain c) (Expires c) (Secure c) (HttpOnly c)
    (CookieSameSite c).

Definition withDomain (c : Cookie) (d : string) : Cookie :=
  mkCookie (Name c) (Value c) (Path c) d (Expires c) (Secure c) (HttpOnly c)
    (CookieSameSite c).

Definition withExpires (c : Cookie) (t : Time) : Cookie :=
  mkCookie (Name c) (Value c) (Path c) (Domain c) (Some t) (Secure c)
    (HttpOnly c) (CookieSameSite c).

Definition withSameSite (c : Cookie) (m : SameSite) : Cookie :=
  mkCookie (Name c) (Value c) (Path c) (Domain c) (Expires c) (Secure c)
    (HttpOnly c) m.

(** What the proxy reads of an [*http.Request]: its [Host], the cookies
    [req.Cookies()] parses out of its [Cookie] headers, as (name, value)
    pairs in header order, and [req.URL.RequestURI()]. *)
Record Request : Type := mkRequest {
  Host : string;
  Cookies : list (string * string);
  RequestURI : string
}.

(** [req.Cookie(name)]: the first cookie of that name, [ErrNoCookie]
    ([None]) when there is none. *)
Definition requestCookie (req : Request) (name : string) : option (string * string) :=
  find (fun c => String.eqb (fst c) name) (Cookies req).

(** The response writer, as far as cookies go: the cookies handed to
    [http.SetCookie], oldest first. *)
Definition ResponseWriter := list Cookie.

Definition SetCookie (w : ResponseWriter) (c : Cookie) : ResponseWriter :=
  (w ++ [c])%list.

(** ** The configuration surface read by the modelled code *)

Record Config : Type := mkConfig {
  ClientID : string;
  CookieDomain : string;
  CookieAccessName : string;
  CookieRefreshName : string;
  EnableSessionCookies : bool;
  HTTPOnlyCookie : bool;
  SecureCookie : bool;
  SameSiteCookie : string;
  ForwardingUsername : string;
  ForwardingPassword : string;
  ForwardingDomains : list string;
  TLSCertificate : string;
  TLSPrivateKey : string
}.

(** * errors.go: the sentinel errors *)

Module Errors.

(** The package's error values, each allocated once by [errors.New], and
    [External]: any error value made elsewhere (a library, [fmt.Errorf],
    another [errors.New]), which is therefore equal to none of them. *)
Inductive error : Type :=
| ErrSessionNotFound
| ErrNoSessionStateFound
| ErrInvalidSession
| ErrAccessTokenExpired
| ErrRefreshTokenExpired
| ErrNoTokenAudience
| ErrDecryption
| ErrEncode
| ErrEncryption
| External (msg : string).

(** [err.Error()] *)
Definition message (e : error) : string :=
  match e with
  | ErrSessionNotFound => "authentication session not found"
  | ErrNoSessionStateFound => "no session state found"
  | ErrInvalidSession => "invalid session identifier"
  | ErrAccessTokenExpired => "the access token has expired"
  | ErrRefreshTokenExpired => "the refresh token has expired"
  | ErrNoTokenAudience => "the token does not audience in claims"
  | ErrDecryption => "failed to decrypt token"
  | ErrEncode => "failed to encode token"
  | ErrEncryption => "failed to encrypt token"
  | External msg => msg
  end.

End Errors.

Import Errors.

(** * cookies.go *)

Module Cookies.

Definition SameSiteStrict := "Strict".
Definition SameSiteLax := "Lax".
Definition SameSiteNone := "None".

(** The closure type [func(string, string, string, time.Duration) *http.Cookie];
    the extra first argument is the clock value [time.Now()] returns when
    the closure runs. *)
Definition cookieDropperT := Time -> string -> string -> string -> Duration -> Cookie.

Definition cookieChunkerT := string -> string -> Z.

(** [makeCookieDropper], a method that reads only [r.config]. [None] is
    the [panic("dev error guard")] of the default branch. *)
Definition makeCookieDropper (config : Config) : option cookieDropperT :=
  let baseCookie :=
    mkCookie "" "" "/" (CookieDomain config) None (SecureCookie config)
      (HTTPOnlyCookie config) SameSiteUnset in
  let baseCookie :=
    if String.eqb (SameSiteCookie config) SameSiteStrict
    then withSameSite baseCookie SameSiteStrictMode
    else if String.eqb (SameSiteCookie config) SameSiteLax
    then withSameSite baseCookie SameSiteLaxMode
    else baseCookie in
  let makeBase (name value : string) := withNameValue baseCookie name value in
  if String.eqb (CookieDomain config) "" && EnableSessionCookies config then
    Some (fun now host name value duration =>
      let cookie := makeBase name value in
      let cookie := withDomain cookie (beforeColon host) in
      if duration <? 0 then withExpires cookie (Add now duration) else cookie)
  else if String.eqb (CookieDomain config) "" && negb (EnableSessionCookies config) then
    Some (fun now host name value duration =>
      let cookie := makeBase name value in
      let cookie := withDomain cookie (beforeColon host) in
      if negb (duration =? 0) then withExpires cookie (Add now duration) else cookie)
  else if negb (String.eqb (CookieDomain config) "") && EnableSessionCookies config then
    Some (fun now _ name value duration =>
      let cookie := makeBase name value in
      if duration <? 0 then withExpires cookie (Add now duration) else cookie)
  else if negb (String.eqb (CookieDomain config) "") && negb (EnableSessionCookies config) then
    Some (fun now host name value duration =>
      let cookie := makeBase name value in
      if negb (duration =? 0) then withExpires cookie (Add now duration) else cookie)
  else None.

Definition cookieMargin : Z := 12 + len "set-cookie: " + 3.
Definition baseCookieChunkLength : Z := 4096 - cookieMargin.

(** [makeCookieChunker], a method that reads only [r.config]. *)
Definition makeCookieChunker (config : Config) : cookieChunkerT :=
  let maxCookieChunkLength := baseCookieChunkLength - len "; Path=/" in
  let maxCookieChunkLength :=
    if HTTPOnlyCookie config
    then maxCookieChunkLength - len "HttpOnly; " else maxCookieChunkLength in
  let maxCookieChunkLength :=
    if negb (EnableSessionCookies config)
    then maxCookieChunkLength - len "Expires=Mon, 02 Jan 2006 03:04:05 MST; "
    else maxCookieChunkLength in
  let maxCookieChunkLength :=
    if negb (String.eqb (SameSiteCookie config) "")
    then maxCookieChunkLength - len ("SameSite=" ++ SameSiteCookie config ++ "; ")
    else maxCookieChunkLength in
  let maxCookieChunkLength :=
    if SecureCookie config
    then maxCookieChunkLength - len "Secure" else maxCookieChunkLength in
  if negb (String.eqb (CookieDomain config) "") then
    let maxCookieChunkLength := maxCookieChunkLength - len "Domain=; " in
    let maxCookieChunkLength := maxCookieChunkLength - len (CookieDomain config) in
    fun _ cookieName => maxCookieChunkLength - len cookieName
  else
    fun host cookieName =>
      maxCookieChunkLength - len cookieName - len (beforeColon host).

(** The proxy, as far as cookies go: its configuration and the two
    closures built from it once, at construction. *)
Record oauthProxy : Type := mkProxy {
  config : Config;
  cookieDropper : cookieDropperT;
  cookieChunker : cookieChunkerT
}.

(** The proxy's closures are the ones its own configuration yields. *)
Definition wired (r : oauthProxy) : Prop :=
  makeCookieDropper (config r) = Some (cookieDropper r)
  /\ cookieChunker r = makeCookieChunker (config r).

(** The clock: [clock n] is what [time.Now()] returns while the cookie
    that lands at position [n] of the response is being built, so that
    every cookie of one response may see a different instant. *)
Definition Clock := nat -> Time.

(** [dropCookie] *)
Definition dropCookie (r : oauthProxy) (clock : Clock) (w : ResponseWriter)
    (host name value : string) (duration : Duration) : ResponseWriter :=
  let cookie := cookieDropper r (clock (List.length w)) host name value duration in
SetCookie w cookie.

(** [getMaxCookieChunkLength] *)
Definition getMaxCookieChunkLength (r : oauthProxy) (req : Request)
    (cookieName : string) : Z :=
  cookieChunker r (Host req) cookieName.

(** How a call ends: it returns, or it panics.  [OutOfFuel] is the
    artefact of bounding a [for] loop by a fuel; the loops below are
    shown never to reach it. *)
Inductive outcome : Type :=
| Returned
| Panicked (p : panic)
| OutOfFuel.

(** The [for i := maxCookieChunkLength; i < len(value); i += maxCookieChunkLength]
    loop of [dropCookieWithChunks].  The name of the cookie, hence the
    division, is evaluated before the slice expression. *)
Fixpoint chunkLoop (fuel : nat) (r : oauthProxy) (clock : Clock)
    (host name value : string) (duration : Duration)
    (maxCookieChunkLength i : Z) (w : ResponseWriter)
    : ResponseWriter * outcome :=
  match fuel with
  | O => (w, OutOfFuel)
  | S fuel' =>
      if i <? len value then
        let end_ := i + maxCookieChunkLength in
        let end_ := if end_ >? len value then len value else end_ in
        match div i maxCookieChunkLength with
        | None => (w, Panicked IntegerDivideByZero)
        | Some k =>
            match slice value i end_ with
            | None => (w, Panicked SliceBoundsOutOfRange)
            | Some chunk =>
                chunkLoop fuel' r clock host name value duration
                  maxCookieChunkLength (i + maxCookieChunkLength)
                  (dropCookie r clock w host (name ++ "-" ++ Itoa k) chunk duration)
            end
        end
      else (w, Returned)
  end.

(** [dropCookieWithChunks] *)
Definition dropCookieWithChunks (r : oauthProxy) (clock : Clock) (req : Request)
    (w : ResponseWriter) (name value : string) (duration : Duration)
    : ResponseWriter * outcome :=
  let maxCookieChunkLength := getMaxCookieChunkLength r req name in
  if len value <=? maxCookieChunkLength then
    (dropCookie r clock w (Host req) name value duration, Returned)
  else
    match slice value 0 maxCookieChunkLength with
    | None => (w, Panicked SliceBoundsOutOfRange)
    | Some first =>
        chunkLoop (S (String.length value)) r clock (Host req) name value duration
          maxCookieChunkLength maxCookieChunkLength
          (dropCookie r clock w (Host req) name first duration)
    end.

(** [dropAccessTokenCookie] *)
Definition dropAccessTokenCookie (r : oauthProxy) (clock : Clock) (req : Request)
    (w : ResponseWriter) (value : string) (duration : Duration) :=
  dropCookieWithChunks r clock req w (CookieAccessName (config r)) value duration.

(** [dropRefreshTokenCookie] *)
Definition dropRefreshTokenCookie (r : oauthProxy) (clock : Clock) (req : Request)
    (w : ResponseWriter) (value : string) (duration : Duration) :=
  dropCookieWithChunks r clock req w (CookieRefreshName (config r)) value duration.

(** The [for i := 1; i < len(req.Cookies()); i++] loop of
    [clearDividedCookies]; it runs fewer than [len(req.Cookies())] times,
    which is the fuel it is given. *)
Fixpoint clearDividedLoop (fuel : nat) (r : oauthProxy) (clock : Clock)
    (req : Request) (name : string) (i : Z) (w : ResponseWriter)
    : ResponseWriter :=
  match fuel with
  | O => w
  | S fuel' =>
      if i <? Z.of_nat (List.length (Cookies req)) then
        match requestCookie req (name ++ "-" ++ Itoa i) with
        | None => w
        | Some _ =>
            clearDividedLoop fuel' r clock req name (i + 1)
              (dropCookie r clock w (Host req) (name ++ "-" ++ Itoa i) ""
                 (-10 * Hour))
        end
      else w
  end.

(** [clearDividedCookies] *)
Definition clearDividedCookies (r : oauthProxy) (clock : Clock) (req : Request)
    (w : ResponseWriter) (name : string) : ResponseWriter :=
  clearDividedLoop (List.length (Cookies req)) r clock req name 1 w.

(** [clearRefreshTokenCookie] *)
Definition clearRefreshTokenCookie (r : oauthProxy) (clock : Clock)
    (req : Request) (w : ResponseWriter) : ResponseWriter :=
  let w := dropCookie r clock w (Host req) (CookieRefreshName (config r)) ""
             (-10 * Hour) in
  clearDividedCookies r clock req w (CookieRefreshName (config r)).

(** [clearAccessTokenCookie] *)
Definition clearAccessTokenCookie (r : oauthProxy) (clock : Clock)
    (req : Request) (w : ResponseWriter) : ResponseWriter :=
  let w := dropCookie r clock w (Host req) (CookieAccessName (config r)) ""
             (-10 * Hour) in
  clearDividedCookies r clock req w (CookieAccessName (config r)).

Section StateCookies.

(** The names of the two one-shot cookies are constants of the
    repository declared outside the modelled files, and the encoder
    is a library: all three are parameters. *)
Variable requestURICookie : string.
Variable requestStateCookie : string.
(** [base64.StdEncoding.EncodeToString] *)
Variable base64Encode : string -> string.

(** [clearStateCookie] *)
Definition clearStateCookie (r : oauthProxy) (clock : Clock)
    (req : Request) (w : ResponseWriter) : ResponseWriter :=
  let w := dropCookie r clock w (Host req) requestStateCookie "" (-10 * Hour) in
  clearDividedCookies r clock req w requestStateCookie.

(** [clearAllCookies] *)
Definition clearAllCookies (r : oauthProxy) (clock : Clock)
    (req : Request) (w : ResponseWriter) : ResponseWriter :=
  let w := clearAccessTokenCookie r clock req w in
  let w := clearRefreshTokenCookie r clock req w in
  clearStateCookie r clock req w.

(** [writeStateParameterCookie]; [uuid] is the fresh identifier
    [uuid.NewString()] draws. *)
Definition writeStateParameterCookie (r : oauthProxy) (clock : Clock)
    (uuid : string) (req : Request) (w : ResponseWriter)
    : ResponseWriter * string :=
  let requestURI := base64Encode (RequestURI req) in
  let w := dropCookie r clock w (Host req) requestURICookie requestURI 0 in
  let w := dropCookie r clock w (Host req) requestStateCookie uuid 0 in
  (w, uuid).

End StateCookies.

(** A run of [dropCookie] calls with one host and one duration, one call
    per (name, value) pair, in order. *)
Fixpoint dropAll (r : oauthProxy) (clock : Clock) (w : ResponseWriter)
    (host : string) (items : list (string * string)) (duration : Duration)
    : ResponseWriter :=
  match items with
  | [] => w
  | (name, value) :: rest =>
      dropAll r clock (dropCookie r clock w host name value duration) host rest
        duration
  end.

(** The name of the [k]-th cookie of a divided set: the base name for
    [k = 0], then [name-1], [name-2], ... *)
Definition chunkName (name : string) (k : nat) : string :=
  match k with
  | O => name
  | S _ => name ++ "-" ++ Itoa (Z.of_nat k)
  end.

(** Bytes [lo, hi) of a value. *)
Definition bytes (value : string) (lo hi : nat) : string :=
  substring lo (hi - lo) value.

(** Bytes [k*b, min((k+1)*b, len(value))) of a value. *)
Definition chunkBytes (value : string) (b k : nat) : string :=
  bytes value (k * b) (Nat.min ((k + 1) * b) (String.length value)).

(** How many continuation cookies a value longer than [b] needs. *)
Definition continuations (value : string) (b : nat) : nat :=
  ((String.length value - 1) / b)%nat.

(** The cookies of a divided set, base cookie first. *)
Definition chunks (name value : string) (b : nat) : list (string * string) :=
  map (fun k => (chunkName name k, chunkBytes value b k))
    (seq 0 (S (continuations value b))).

(** The (name, value) pairs of the cookies of a response. *)
Definition namesValues (w : ResponseWriter) : list (string * string) :=
  map (fun c => (Name c, Value c)) w.

(** The inner loop of [filterCookies]: does some prefix of [filter]
    start the name? *)
Fixpoint matchesFilter (name : string) (filter : list string) : bool :=
  match filter with
  | [] => false
  | n :: rest => if HasPrefix name n then true else matchesFilter name rest
  end.

(** [req.AddCookie] on the parsed view of the [Cookie] header: the cookie
    is appended. *)
Definition AddCookie (cookies : list (string * string)) (c : string * string)
    : list (string * string) :=
  (cookies ++ [c])%list.

(** The outer loop of [filterCookies], from the emptied header. *)
Fixpoint filterLoop (cookies : list (string * string)) (filter : list string)
    (acc : list (string * string)) : list (string * string) :=
  match cookies with
  | [] => acc
  | x :: rest =>
      if matchesFilter (fst x) filter
      then filterLoop rest filter (AddCookie acc (fst x, "redacted"))
      else filterLoop rest filter (AddCookie acc x)
  end.

(** [filterCookies]; the second component is the returned [error],
    [None] for [nil]. *)
Definition filterCookies (req : Request) (filter : list string)
    : Request * option string :=
  let cookies := Cookies req in
  (mkRequest (Host req) (filterLoop cookies filter []) (RequestURI req), None).

End Cookies.

(** * forwarding.go: the credential renewal loop and the request signer *)

Module Forwarding.

(** What a fallible call gives back: its values with a [nil] error, or
    the error. *)
Inductive result (A : Type) : Type :=
| Ok (a : A)
| Err (e : error).
Arguments Ok {A} a.
Arguments Err {A} e.

(** [jose.JWT]; byte slices are byte strings. *)
Record JWT : Type := mkJWT {
  RawHeader : string;
  Header : list (string * string);
  RawPayload : string;
  Payload : string;
  Signature : string
}.

(** The zero value [jose.JWT{}]. *)
Definition zeroJWT : JWT := mkJWT "" [] "" "" "".

(** [oidc.Identity] *)
Record Identity : Type := mkIdentity {
  ID : string;
  IdentityName : string;
  Email : string;
  ExpiresAt : Time
}.

(** The fields of [oauth2.TokenResponse] the loop reads. *)
Record TokenResponse : Type := mkTokenResponse {
  AccessToken : string;
  RefreshToken : string
}.

(** The zero [time.Time]. *)
Definition zeroTime : Time := 0.

(** [forwardingState], without its lock: a locked section is one atomic
    step of the loop below. *)
Record forwardingState : Type := mkState {
  token : JWT;
  refresh : string;
  identity : option Identity;
  expiration : Time;
  login : bool;
  wait : bool
}.

Definition setWait (b : bool) (s : forwardingState) : forwardingState :=
  mkState (token s) (refresh s) (identity s) (expiration s) (login s) b.

Definition setLogin (b : bool) (s : forwardingState) : forwardingState :=
  mkState (token s) (refresh s) (identity s) (expiration s) b (wait s).

(** [&forwardingState{login: true}] *)
Definition initialState : forwardingState :=
  mkState zeroJWT "" None zeroTime true false.

Inductive level : Type := LogInfo | LogWarn | LogError.

(** What one turn of the loop does, in program order.  The five
    [Section...] events are the five [state.Lock() ... state.Unlock()]
    sections; the two calls are the only network operations. *)
Inductive event : Type :=
| Log (l : level) (msg : string)
| SectionResetWait
| SectionStoreLogin (tok : JWT) (ident : Identity) (refreshToken : string)
| SectionRefreshFailed (err : error)
| SectionStoreRefresh (tok : JWT) (newRefreshToken : string) (exp : Time)
| SectionNoRefresh
| CallUserCredsToken (username password : string)
| CallParseToken (accessToken : string)
| CallGetRefreshedToken (refreshToken : string)
| SleepBackoff (d : Duration)
| SleepUntilRenewal (expiration : Time).

(** A trace pairs every event with the shared state as it stands once
    the event is over: the states a concurrent reader can find. *)
Definition trace := list (event * forwardingState).

(** The loop body threads the shared state and appends to the trace. *)
Definition M (A : Type) : Type := forwardingState -> A * forwardingState * trace.

Definition ret {A : Type} (a : A) : M A := fun s => (a, s, []).

Definition bind {A B : Type} (m : M A) (k : A -> M B) : M B :=
  fun s =>
    let '(a, s1, t1) := m s in
    let '(b, s2, t2) := k a s1 in
    (b, s2, (t1 ++ t2)%list).

Definition tell (e : event) : M unit := fun s => (tt, s, [(e, s)]).

(** A locked section: the assignments happen together. *)
Definition locked (e : event) (f : forwardingState -> forwardingState) : M unit :=
  fun s => (tt, f s, [(e, f s)]).

(** A read through [cloneState] (or [state]): [cloneState := state]
    copies the pointer, so the read sees the shared record as it is now. *)
Definition read {A : Type} (field : forwardingState -> A) : M A :=
  fun s => (field s, s, []).

Declare Scope loop_scope.
Delimit Scope loop_scope with loop.
Notation "x <- m ;; k" := (bind m (fun x => k))
  (at level 61, m at next level, right associativity) : loop_scope.
Notation "m ;; k" := (bind m (fun _ => k))
  (at level 61, right associativity) : loop_scope.
Open Scope loop_scope.

(** How one turn ends: [continue] (or falling off the end of the body),
    [return nil], or a panic. *)
Inductive control : Type :=
| Continue
| Return
| Panic (p : panic).

(** What the outside world decides during one turn of the loop. *)
Record Env : Type := mkEnv {
(** [r.forwardCtx.Done()] is ready at the top of the loop *)
ctxDone : bool;
(** what [client.UserCredsToken] answers *)
loginResult : result TokenResponse;
(** what [getRefreshedToken] answers: token, new refresh token, expiry *)
refreshResult : result (JWT * string * Time);
(** the context is cancelled before the 5 second timer fires *)
cancelledInBackoff : bool;
(** the context is cancelled before the renewal timer fires *)
cancelledInWait : bool
}.

Section Loop.

Variable config : Config.

(** [parseToken], a function of the repository declared outside the
    modelled files; on success its identity is never [nil]. *)
Variable parseToken : string -> result (JWT * Identity).

(** The [select] between [ctx.Done()] and [time.After(5 * time.Second)]. *)
Definition backoff (env : Env) : M control :=
  tell (SleepBackoff (5 * Second)) ;;
  ret (if cancelledInBackoff env then Return else Continue).

(** The [if cloneState.wait] step that ends the body. *)
Definition waitStep (env : Env) : M control :=
  w <- read wait ;;
  if w then
    exp <- read expiration ;;
    tell (Log LogInfo "waiting for expiration of access token") ;;
    tell (SleepUntilRenewal exp) ;;
    ret (if cancelledInWait env then Return else Continue)
  else ret Continue.

(** One turn of the [for] loop of the renewal goroutine. *)
Definition iteration (env : Env) : M control :=
  if ctxDone env then ret Return else
  locked SectionResetWait (setWait false) ;;
  l <- read login ;;
  if l then
    tell (Log LogInfo "requesting access token for user") ;;
    tell (CallUserCredsToken (ForwardingUsername config) (ForwardingPassword config)) ;;
    match loginResult env with
    | Err _ =>
        tell (Log LogError "failed to login to authentication service") ;;
        backoff env
    | Ok resp =>
        tell (CallParseToken (AccessToken resp)) ;;
        match parseToken (AccessToken resp) with
        | Err _ =>
            tell (Log LogError "failed to parse the access token") ;;
            backoff env
        | Ok (tok, ident) =>
            locked (SectionStoreLogin tok ident (RefreshToken resp)) (fun _ =>
              mkState tok (RefreshToken resp) (Some ident) (ExpiresAt ident)
                false true) ;;
            tell (Log LogInfo "successfully retrieved access token for subject") ;;
            waitStep env
        end
    end
  else
    ident <- read identity ;;
    match ident with
    | None => ret (Panic NilPointerDereference)
    | Some _ =>
        tell (Log LogInfo "access token is about to expiry") ;;
        rt <- read refresh ;;
        if negb (String.eqb rt "") then
          tell (Log LogInfo "attempting to refresh the access token") ;;
          tell (CallGetRefreshedToken rt) ;;
          match refreshResult env with
          | Err err =>
              locked (SectionRefreshFailed err) (setLogin true) ;;
              match err with
              | ErrRefreshTokenExpired =>
                  tell (Log LogWarn "the refresh token has expired, need to login again")
              | _ =>
                  tell (Log LogError "failed to refresh the access token")
              end ;;
              ret Continue
          | Ok (tok, newRefreshToken, exp) =>
              locked (SectionStoreRefresh tok newRefreshToken exp) (fun s =>
                mkState tok
                  (if negb (String.eqb newRefreshToken "")
                   then newRefreshToken else refresh s)
                  (identity s) exp false true) ;;
              tell (Log LogInfo "successfully refreshed the access token") ;;
              waitStep env
          end
        else
          locked SectionNoRefresh (fun s => setLogin true (setWait false s)) ;;
          tell (Log LogInfo "session does not support refresh token, acquiring new token") ;;
          waitStep env
    end.

(** The events of a trace, without the states. *)
Definition events (t : trace) : list event := map fst t.

(** The event is one of the two timed waits of the loop. *)
Definition isSleep (e : event) : bool :=
  match e with
  | SleepBackoff _ | SleepUntilRenewal _ => true
  | _ => false
  end.

(** The event is one of the two calls to the identity provider. *)
Definition isNetworkCall (e : event) : bool :=
  match e with
  | CallUserCredsToken _ _ | CallGetRefreshedToken _ => true
  | _ => false
  end.

(** The token written by the most recent section that stores the outcome
    of a successful login or refresh, if there has been one. *)
Fixpoint lastStored (es : list event) (acc : option JWT) : option JWT :=
  match es with
  | [] => acc
  | SectionStoreLogin tok _ _ :: rest => lastStored rest (Some tok)
  | SectionStoreRefresh tok _ _ :: rest => lastStored rest (Some tok)
  | _ :: rest => lastStored rest acc
  end.

(** The [for] loop, for as many turns as the world has answers; it
    stops early when a turn returns or panics. *)
Fixpoint run (envs : list Env) : M control :=
  match envs with
  | [] => ret Continue
  | env :: rest =>
      c <- iteration env ;;
      match c with
      | Continue => run rest
      | _ => ret c
      end
  end.

(** The trace of the goroutine started by [forwardProxyHandler]. *)
Definition renewal (envs : list Env) : trace :=
  snd (run envs initialState).

(** The shared state a reader finds after a trace. *)
Definition stateAfter (s0 : forwardingState) (t : trace) : forwardingState :=
  last (map snd t) s0.

(** What the signer reads under [state.RLock()] when it runs after the
    first [n] events of the renewal goroutine. *)
Definition observedToken (envs : list Env) (n : nat) : JWT :=
  token (stateAfter initialState (firstn n (renewal envs))).

End Loop.

(** An outbound request, as far as the signer goes. *)
Record OutRequest : Type := mkOutRequest {
  ReqHost : string;
  URLHost : string;
  ReqHeader : list (string * string)
}.

(** [Header.Set] for a key already in canonical form: the key gets this
    single value. *)
Definition HeaderSet (h : list (string * string)) (key value : string)
    : list (string * string) :=
  (key, value) :: filter (fun kv => negb (String.eqb (fst kv) key)) h.

(** [Header.Get] for a key in canonical form; [""] when absent. *)
Definition HeaderGet (h : list (string * string)) (key : string) : string :=
  match find (fun kv => String.eqb (fst kv) key) h with
  | Some kv => snd kv
  | None => ""
  end.

Section Signer.

Variable config : Config.
(** [containsSubString], declared outside the modelled files *)
Variable containsSubString : string -> list string -> bool.
(** [jose.JWT.Encode] *)
Variable Encode : JWT -> string.
(** [version.Prog] *)
Variable versionProg : string.

(** The closure [forwardProxyHandler] returns, run while the shared
    state is [state]. *)
Definition signer (state : forwardingState) (req : OutRequest) : OutRequest :=
  let hostname := ReqHost req in
  let req := mkOutRequest (ReqHost req) hostname (ReqHeader req) in
  if (Z.of_nat (List.length (ForwardingDomains config)) =? 0)
     || containsSubString hostname (ForwardingDomains config)
  then
    let token := token state in
    let h := HeaderSet (ReqHeader req) "Authorization" ("Bearer " ++ Encode token) in
    let h := HeaderSet h "X-Forwarded-Agent" versionProg in
    mkOutRequest (ReqHost req) (URLHost req) h
  else req.

End Signer.

Section Validation.

(** [isDiscoveryValid], declared outside the modelled files *)
Variable isDiscoveryValid : Config -> option error.

(** [isForwardingValid]; [None] is [nil]. *)
Definition isForwardingValid (r : Config) : option error :=
  if String.eqb (ClientID r) "" then
    Some (External "you have not specified the client id")
  else match isDiscoveryValid r with
  | Some err => Some err
  | None =>
  if String.eqb (ForwardingUsername r) "" then
    Some (External "no forwarding username")
  else if String.eqb (ForwardingPassword r) "" then
    Some (External "no forwarding password")
  else if negb (String.eqb (TLSCertificate r) "") then
    Some (External "you don't need to specify a tls-certificate, use tls-ca-certificate instead")
  else if negb (String.eqb (TLSPrivateKey r) "") then
    Some (External "you don't need to specify the tls-private-key, use tls-ca-key instead")
  else None
  end.

End Validation.

End Forwarding.

(** * The identity extractor ([extractIdentity] and [userContext]) *)

Module Identity.

Import Forwarding.

(** The dynamic values a [jose.Claims] map holds.  JSON decoding yields
    strings, [[]interface{}], [map[string]interface{}] and values of other
    types (numbers, booleans, [nil]); a claims map built in Go may also
    hold a [[]string].  A Go map is a list of bindings with distinct
    keys; ranging over it visits the bindings in some order, here the
    order of the list. *)
Inductive value : Type :=
| VString (s : string)
| VStrings (l : list string)
| VSlice (l : list value)
| VMap (m : list (string * value))
| VOther (rendering : string).

(** [jose.Claims] *)
Definition Claims := list (string * value).

(** [m[key]] with its [ok] flag *)
Fixpoint lookup (m : list (string * value)) (key : string) : option value :=
  match m with
  | [] => None
  | (k, v) :: rest => if String.eqb k key then Some v else lookup rest key
  end.

(** [Claims.StringClaim]: value, found, error. *)
Definition StringClaim (c : Claims) (name : string) : string * bool * option error :=
  match lookup c name with
  | None => ("", false, None)
  | Some (VString v) => (v, true, None)
  | Some _ => ("", false, Some (External ("unable to parse claim as string: " ++ name)))
  end.

(** The loop of [StringsClaim] over a [[]interface{}]: [None] as soon as
    an element is not a string. *)
Fixpoint stringsOf (v : list value) : option (list string) :=
  match v with
  | [] => Some []
  | VString str :: rest =>
      match stringsOf rest with
      | Some ret => Some (str :: ret)
      | None => None
      end
  | _ :: _ => None
  end.

(** [Claims.StringsClaim]: value, found, error. *)
Definition StringsClaim (c : Claims) (name : string)
    : list string * bool * option error :=
  match lookup c name with
  | None => ([], false, None)
  | Some (VStrings v) => (v, true, None)
  | Some (VSlice v) =>
      match stringsOf v with
      | Some ret => (ret, true, None)
      | None => ([], false, Some (External ("unable to parse claim as string array: " ++ name)))
      end
  | Some _ => ([], false, Some (External ("unable to parse claim as string array: " ++ name)))
  end.

(** [userContext] *)
Record userContext : Type := mkUserContext {
  id : string;
  audiences : list string;
  bearerToken : bool;
  claims : Claims;
  email : string;
  expiresAt : Time;
  groups : list string;
  name : string;
  preferredName : string;
  roles : list string;
  token : JWT
}.

Section Extract.

(** The claim keys are constants of the repository declared outside
    the modelled files. *)
Variable claimPreferredName : string.
Variable claimAudience : string.
Variable claimRealmAccess : string.
Variable claimResourceAccess : string.
Variable claimResourceRoles : string.
Variable claimGroups : string.

(** [token.Claims()] and [oidc.IdentityFromClaims], library calls whose
    errors are the library's own. *)
Variable tokenClaims : JWT -> Claims + string.
Variable IdentityFromClaims : Claims -> Forwarding.Identity + string.

(** How [fmt] renders, under the verb [%s], an operand that is not a
    string. *)
Variable render : value -> string.

(** [fmt.Sprintf("%s", r)] *)
Definition sprintS (r : value) : string :=
  match r with
  | VString s => s
  | _ => render r
  end.

(** The realm roles step: the roles appended to [roleList]. *)
Definition realmRoles (claims : Claims) (roleList : list string) : list string :=
  match lookup claims claimRealmAccess with
  | Some (VMap realmRoles) =>
      match lookup realmRoles claimResourceRoles with
      | Some (VSlice roles) => (roleList ++ map sprintS roles)%list
      | _ => roleList
      end
  | _ => roleList
  end.

(** The body of [for name, list := range accesses]. *)
Definition clientRolesOf (name : string) (entry : value) (roleList : list string)
    : list string :=
  match entry with
  | VMap scopes =>
      match lookup scopes claimResourceRoles with
      | Some (VSlice rolesForKey) =>
          (roleList ++ map (fun r => (name ++ ":" ++ sprintS r)%string) rolesForKey)%list
      | _ => roleList
      end
  | _ => roleList
  end.

(** The client roles step. *)
Definition clientRoles (claims : Claims) (roleList : list string) : list string :=
  match lookup claims claimResourceAccess with
  | Some (VMap accesses) =>
      fold_left (fun acc entry => clientRolesOf (fst entry) (snd entry) acc)
        accesses roleList
  | _ => roleList
  end.

(** [extractIdentity] *)
Definition extractIdentity (token : JWT) : result userContext :=
  match tokenClaims token with
  | inr err => Err (External err)
  | inl claims =>
  match IdentityFromClaims claims with
  | inr err => Err (External err)
  | inl identity =>
  let preferredName :=
    match StringClaim claims claimPreferredName with
    | (preferredName, true, None) => preferredName
    | _ => Email identity
    end in
  let audiences :=
    match StringClaim claims claimAudience with
    | (aud, true, None) => Ok [aud]
    | _ =>
        match StringsClaim claims claimAudience with
        | (aud, true, None) => Ok aud
        | _ => Err ErrNoTokenAudience
        end
    end in
  match audiences with
  | Err e => Err e
  | Ok audiences =>
  let roleList := realmRoles claims [] in
  let roleList := clientRoles claims roleList in
  match StringsClaim claims claimGroups with
  | (_, _, Some err) => Err err
  | (groups, _, None) =>
      Ok (mkUserContext (ID identity) audiences false claims (Email identity)
            (ExpiresAt identity) groups preferredName preferredName roleList
            token)
  end
  end
  end
  end.

End Extract.

(** [containsString], declared outside the modelled files, is a
    parameter of [isAudience]. *)
Definition isAudience (containsString : string -> list string -> bool)
    (r : userContext) (aud : string) : bool :=
  containsString aud (audiences r).

(** [getRoles] *)
Definition getRoles (r : userContext) : string := Join (roles r) ",".

(** [isExpired] *)
Definition isExpired (now : Time) (r : userContext) : bool := expiresAt r <? now.

(** [isBearer] *)
Definition isBearer (r : userContext) : bool := bearerToken r.

(** [isCookie] *)
Definition isCookie (r : userContext) : bool := negb (isBearer r).

End Identity.

(** * errors.go: the error responses *)

Module Responses.

Import Forwarding.






Section Handlers.

(** Two constants of the repository declared outside the modelled files,
    and the rendering of the verb [%q] of [fmt]. *)
Variable jsonMime : string.
Variable headerXContentTypeOptions : string.
Variable quoted : string -> string.





End Handlers.

End Responses.

(** * Vocabulary of the properties *)

(** The same-site mode [makeCookieDropper] gives its base cookie. *)
Definition sameSiteOf (config : Config) : SameSite :=
  if String.eqb (SameSiteCookie config) Cookies.SameSiteStrict then SameSiteStrictMode
  else if String.eqb (SameSiteCookie config) Cookies.SameSiteLax then SameSiteLaxMode
  else SameSiteUnset.

(** A proxy wired to a configuration, for the examples: its two closures
    are the ones [makeCookieDropper] and [makeCookieChunker] return. *)
Definition exampleProxy (config : Config) : Cookies.oauthProxy :=
  Cookies.mkProxy config
    (match Cookies.makeCookieDropper config with
     | Some d => d
     | None => fun _ _ name value _ =>
         mkCookie name value "" "" None false false SameSiteUnset
     end)
    (Cookies.makeCookieChunker config).

(** A configuration for the examples: cookie domain, session mode and
    same-site mode vary. *)
Definition exampleConfig (domain : string) (session : bool) (sameSite : string)
    : Config :=
  mkConfig "gatekeeper" domain "kc-access" "kc-state" session true true sameSite
    "svc" "secret" [] "" "".

(** The attribute matrix for one emitted cookie [c], as the code has it:
    the domain; when an expiry is present; and what each sign of the
    lifetime yields. *)
Definition attributeMatrix (config : Config) (c : Cookie) (now : Time)
    (host : string) (lifetime : Duration) : Prop :=
  Domain c = (if String.eqb (CookieDomain config) "" then beforeColon host
              else CookieDomain config)
  /\ (Expires c <> None <->
      if EnableSessionCookies config then lifetime < 0 else lifetime <> 0)
  /\ (lifetime < 0 -> exists t, Expires c = Some t /\ t < now)
  /\ (lifetime = 0 -> Expires c = None)
  /\ (0 < lifetime ->
      Expires c = if EnableSessionCookies config then None
                  else Some (Add now lifetime)).

(** The matrix with the last line read without its session-mode case: a
    positive lifetime always sets an expiry. *)
Definition attributeMatrixAsStated (config : Config) (c : Cookie) (now : Time)
    (host : string) (lifetime : Duration) : Prop :=
  Domain c = (if String.eqb (CookieDomain config) "" then beforeColon host
              else CookieDomain config)
  /\ (Expires c <> None <->
      if EnableSessionCookies config then lifetime < 0 else lifetime <> 0)
  /\ (lifetime < 0 -> exists t, Expires c = Some t /\ t < now)
  /\ (lifetime = 0 -> Expires c = None)
  /\ (0 < lifetime -> Expires c = Some (Add now lifetime)).

(** The continuation cookies [name-1], ..., [name-n] are on the request
    and [name-(n+1)] is not: [n] is the length of the maximal contiguous
    run. *)
Definition contiguousRun (req : Request) (name : string) (n : nat) : Prop :=
  (forall k, (1 <= k <= n)%nat -> requestCookie req (Cookies.chunkName name k) <> None)
  /\ requestCookie req (Cookies.chunkName name (S n)) = None.

(** Clearing the access cookie appends a clearing cookie for the base name
    and for each of [name-1], ..., [name-n], and nothing else. *)
Definition clearsWholeRun (r : Cookies.oauthProxy) (clock : Cookies.Clock)
    (req : Request) (w : ResponseWriter) (n : nat) : Prop :=
  Cookies.namesValues (Cookies.clearAccessTokenCookie r clock req w) =
  (Cookies.namesValues w
   ++ (CookieAccessName (Cookies.config r), "")
      :: map (fun k => (Cookies.chunkName (CookieAccessName (Cookies.config r)) k, ""))
           (seq 1 n))%list.

(** A host name of 4100 bytes. *)
Definition longHost : string := string_of_list_ascii (repeat "a"%char 4100).

(** The three components of what a turn of the loop gives back. *)
Definition outcomeOf (x : Forwarding.control * Forwarding.forwardingState * Forwarding.trace)
    : Forwarding.control := fst (fst x).

Definition finalState (x : Forwarding.control * Forwarding.forwardingState * Forwarding.trace)
    : Forwarding.forwardingState := snd (fst x).

Definition traceOf (x : Forwarding.control * Forwarding.forwardingState * Forwarding.trace)
    : Forwarding.trace := snd x.

(** The severity at which a refresh failure is logged. *)
Definition refreshFailureLevel (e : error) : Forwarding.level :=
  match e with
  | ErrRefreshTokenExpired => Forwarding.LogWarn
  | _ => Forwarding.LogError
  end.

(** The severities of the log entries among some events, in order. *)
Fixpoint logLevels (es : list Forwarding.event) : list Forwarding.level :=
  match es with
  | [] => []
  | Forwarding.Log l _ :: rest => l :: logLevels rest
  | _ :: rest => logLevels rest
  end.

(** The token field after an event, given the token field before it: only
    the two sections that store a login or a refresh write it. *)
Definition tokenWritten (e : Forwarding.event) (old : Forwarding.JWT) : Forwarding.JWT :=
  match e with
  | Forwarding.SectionStoreLogin tok _ _ => tok
  | Forwarding.SectionStoreRefresh tok _ _ => tok
  | _ => old
  end.

(** Every state of the trace holds the token its event wrote, or else the
    token of the state before it. *)
Fixpoint tracked (prev : Forwarding.forwardingState) (t : Forwarding.trace) : Prop :=
  match t with
  | [] => True
  | (e, s) :: rest =>
      Forwarding.token s = tokenWritten e (Forwarding.token prev) /\ tracked s rest
  end.

(** What the signer reads after the first [n] events is a token that some
    completed login or refresh stored, and the latest such. *)
Definition observesStoredToken (config : Config)
    (parseToken : string -> Forwarding.result (Forwarding.JWT * Forwarding.Identity))
    (envs : list Forwarding.Env) (n : nat) : Prop :=
  exists t,
    Forwarding.lastStored
      (Forwarding.events (firstn n (Forwarding.renewal config parseToken envs))) None
    = Some t
    /\ Forwarding.observedToken config parseToken envs n = t.

(** A token parser for the examples: it accepts every non-empty string. *)
Definition exampleParseToken (t : string)
    : Forwarding.result (Forwarding.JWT * Forwarding.Identity) :=
  if String.eqb t "" then Forwarding.Err (External "malformed token")
  else Forwarding.Ok (Forwarding.mkJWT "" [] t "" "",
                      Forwarding.mkIdentity "subject" "" "svc@example.com" 3600).

(** A state of the loop for the examples: logged in, with a refresh
    token [rt], waiting for the expiry. *)
Definition exampleActive (rt : string) : Forwarding.forwardingState :=
  Forwarding.mkState (Forwarding.mkJWT "" [] "access" "" "") rt
    (Some (Forwarding.mkIdentity "subject" "" "svc@example.com" 3600)) 3600
    false true.

(** A turn of the world for the examples: nothing is cancelled, the
    login and the refresh answer as given. *)
Definition exampleEnv (loginResult : Forwarding.result Forwarding.TokenResponse)
    (refreshResult : Forwarding.result (Forwarding.JWT * string * Time))
    : Forwarding.Env :=
  Forwarding.mkEnv false loginResult refreshResult false false.

(** The claim [key] is present as a single string. *)
Definition claimAsString (c : Identity.Claims) (key : string) : Prop :=
  exists v, Identity.lookup c key = Some (Identity.VString v).

(** The claim [key] is present as a list of strings: a [[]string], or a
    [[]interface{}] all of whose elements are strings. *)
Definition claimAsStringList (c : Identity.Claims) (key : string) (l : list string)
    : Prop :=
  Identity.lookup c key = Some (Identity.VStrings l)
  \/ exists vs, Identity.lookup c key = Some (Identity.VSlice vs)
                /\ Identity.stringsOf vs = Some l.

(** The value is an object that holds a list under [rolesKey]: the one
    shape of a realm-access claim, or of an entry of a resource-access
    claim, that contributes roles. *)
Definition holdsRoleList (rolesKey : string) (v : option Identity.value) : Prop :=
  exists m roles,
    v = Some (Identity.VMap m)
    /\ Identity.lookup m rolesKey = Some (Identity.VSlice roles).

(** The (name, value) pairs of the clearing cookies for a base name and
    its first [m] continuations. *)
Definition clearingOf (name : string) (m : nat) : list (string * string) :=
  (name, "") :: map (fun k => (Cookies.chunkName name k, "")) (seq 1 m).

(** What [filterCookies] makes of one cookie. *)
Definition redacted (filter : list string) (c : string * string) : string * string :=
  if existsb (fun n => String.prefix n (fst c)) filter
  then (fst c, "redacted") else c.

(** The invariant of the renewal loop between turns: a lowered login flag
    comes with an identity, and a raised one with a lowered wait flag. *)
Definition loopInvariant (s : Forwarding.forwardingState) : Prop :=
  (Forwarding.login s = false -> Forwarding.identity s <> None)
  /\ (Forwarding.login s = true -> Forwarding.wait s = false).

(** How many of the events satisfy a test. *)
Definition countEvents (p : Forwarding.event -> bool) (t : Forwarding.trace) : nat :=
  List.length (filter p (Forwarding.events t)).

(** A storing section has its answer: the token a login section stores
    was parsed out of the access token some turn's login answered with,
    and what a refresh section stores is what some turn's refresh answered
    with. *)
Definition answered
    (parseToken : string -> Forwarding.result (Forwarding.JWT * Forwarding.Identity))
    (envs : list Forwarding.Env) (e : Forwarding.event) : Prop :=
  match e with
  | Forwarding.SectionStoreLogin tok ident rt =>
      exists env resp,
        In env envs
        /\ Forwarding.loginResult env = Forwarding.Ok resp
        /\ parseToken (Forwarding.AccessToken resp) = Forwarding.Ok (tok, ident)
        /\ rt = Forwarding.RefreshToken resp
  | Forwarding.SectionStoreRefresh tok nrt exp =>
      exists env,
        In env envs /\ Forwarding.refreshResult env = Forwarding.Ok (tok, nrt, exp)
  | _ => True
  end.

(** Does the signer sign requests to this host? *)
Definition signs (config : Config) (containsSubString : string -> list string -> bool)
    (hostname : string) : bool :=
  match ForwardingDomains config with
  | [] => true
  | _ => containsSubString hostname (ForwardingDomains config)
  end.

(** The roles a value contributes when it is an object holding a role
    list under [rolesKey], each rendered by [show]; none otherwise. *)
Definition roleListOf (rolesKey : string) (show : Identity.value -> string)
    (v : option Identity.value) : list string :=
  match v with
  | Some (Identity.VMap m) =>
      match Identity.lookup m rolesKey with
      | Some (Identity.VSlice roles) => map show roles
      | _ => []
      end
  | _ => []
  end.

(** The roles of an identity in closed form: the realm roles as they are,
    then, client by client, the client roles written [client:role]. *)
Definition rolesOfClaims (realmKey resourceKey rolesKey : string)
    (render : Identity.value -> string) (claims : Identity.Claims) : list string :=
  (roleListOf rolesKey (Identity.sprintS render) (Identity.lookup claims realmKey)
   ++ match Identity.lookup claims resourceKey with
      | Some (Identity.VMap accesses) =>
          flat_map (fun entry =>
            roleListOf rolesKey
              (fun r => (fst entry ++ ":" ++ Identity.sprintS render r)%string)
              (Some (snd entry))) accesses
      | _ => []
      end)%list.

(** * Properties *)

(** ** Strings and slices *)

Section StringFacts.

Local Open Scope nat_scope.

Lemma substring_zero_length (s : string) (n : nat) : substring n 0 s = "".
Proof.
  revert n; induction s as [|c s IH]; intros [|n]; simpl; auto.
Qed.

Lemma substring_length (s : string) (n m : nat) :
  String.length (substring n m s) = Nat.min m (String.length s - n).
Proof.
  revert n m; induction s as [|c s IH]; intros [|n] [|m]; simpl; auto;
    rewrite ?IH, ?Nat.sub_0_r, ?substring_zero_length; reflexivity.
Qed.

Lemma substring_all (s : string) (m : nat) :
  String.length s <= m -> substring 0 m s = s.
Proof.
  revert m; induction s as [|c s IH]; intros [|m] H; simpl in *; auto; try lia.
  f_equal; apply IH; lia.
Qed.

Lemma substring_past_end (s : string) (n m : nat) :
  String.length s <= n -> substring n m s = "".
Proof.
  revert n m; induction s as [|c s IH]; intros [|n] [|m] H; simpl in *; auto;
    try lia; apply IH; lia.
Qed.

(** Two adjacent slices make the slice that spans both. *)
Lemma substring_adjacent (s : string) (n a c : nat) :
  (substring n a s ++ substring (n + a) c s)%string = substring n (a + c) s.
Proof.
  revert n a c; induction s as [|x s IH]; intros n a c.
  - destruct n, a, c; reflexivity.
  - destruct n as [|n].
    + destruct a as [|a]; simpl.
      * reflexivity.
      * f_equal. apply (IH 0 a c).
    + simpl. apply IH.
Qed.

Lemma length_len (s : string) : len s = Z.of_nat (String.length s).
Proof. reflexivity. Qed.

End StringFacts.

(** ** The cookie attribute policy *)

Section AttributePolicy.

Import Cookies.

(** [makeCookieDropper] never reaches its [panic], and the closure it
    returns builds this cookie. *)
Lemma makeCookieDropper_closed_form (config : Config) :
  exists d,
    makeCookieDropper config = Some d
    /\ forall now host name value duration,
        d now host name value duration =
        mkCookie name value "/"
          (if String.eqb (CookieDomain config) "" then beforeColon host
           else CookieDomain config)
          (if (if EnableSessionCookies config then duration <? 0
               else negb (duration =? 0))
           then Some (Add now duration) else None)
          (SecureCookie config) (HTTPOnlyCookie config) (sameSiteOf config).
Proof.
  unfold makeCookieDropper, sameSiteOf.
  destruct (String.eqb (CookieDomain config) "") eqn:Hd;
    destruct (EnableSessionCookies config) eqn:Hs; simpl;
    eexists; (split; [reflexivity|]); intros;
    destruct (String.eqb (SameSiteCookie config) SameSiteStrict);
    [| destruct (String.eqb (SameSiteCookie config) SameSiteLax) | |
       destruct (String.eqb (SameSiteCookie config) SameSiteLax) | |
       destruct (String.eqb (SameSiteCookie config) SameSiteLax) | |
       destruct (String.eqb (SameSiteCookie config) SameSiteLax) ];
    try (destruct (duration <? 0); reflexivity);
    try (destruct (duration =? 0); reflexivity).
  all: apply String.eqb_eq in Hd; rewrite ?Hd;
    try (destruct (duration <? 0); reflexivity);
    try (destruct (duration =? 0); reflexivity).
Qed.

(** A wired proxy drops the cookie of the closed form. *)
Lemma wired_dropper (r : oauthProxy) :
  wired r ->
  forall now host name value duration,
    cookieDropper r now host name value duration =
    mkCookie name value "/"
      (if String.eqb (CookieDomain (config r)) "" then beforeColon host
       else CookieDomain (config r))
      (if (if EnableSessionCookies (config r) then duration <? 0
           else negb (duration =? 0))
       then Some (Add now duration) else None)
      (SecureCookie (config r)) (HTTPOnlyCookie (config r)) (sameSiteOf (config r)).
Proof.
  intros [Hd _].
  destruct (makeCookieDropper_closed_form (config r)) as [d [E H]].
  rewrite E in Hd. injection Hd as <-. exact H.
Qed.

Lemma exampleProxy_wired (config : Config) : wired (exampleProxy config).
Proof.
  destruct (makeCookieDropper_closed_form config) as [d [E _]].
  split; simpl; [rewrite E|]; reflexivity.
Qed.

(** C5: with an empty cookie domain, session cookies, HTTP-only, secure and
    same-site [Lax], the chunk budget of cookie [kc-access] on host
    [example.com:8443] is exactly 4011 bytes, whatever the rest of the
    configuration and of the request. *)
Theorem C5_chunk_budget_kc_access :
  forall clientID access refresh user pass domains cert key dropper cookies uri,
    let config :=
      mkConfig clientID "" access refresh true true true "Lax" user pass domains
        cert key in
    getMaxCookieChunkLength (mkProxy config dropper (makeCookieChunker config))
      (mkRequest "example.com:8443" cookies uri) "kc-access" = 4011.
Proof. intros. reflexivity. Qed.

(** C6 (amended): for each of the four variants (domain fixed or empty,
    session mode on or off) and every lifetime, the cookie's domain is the
    fixed domain when there is one and the host without its port otherwise;
    an expiry is present iff the lifetime is negative in session mode, iff
    it is non-zero otherwise; a negative lifetime gives an expiry already
    past, zero gives none, and a positive lifetime gives [now + lifetime]
    outside session mode and no expiry in session mode. *)
Theorem C6_attribute_matrix :
  forall r, wired r ->
  forall now host name value lifetime,
    attributeMatrix (config r) (cookieDropper r now host name value lifetime)
      now host lifetime.
Proof.
  intros r W now host name value lifetime.
  rewrite (wired_dropper r W). unfold attributeMatrix, Add; simpl.
  split; [reflexivity|].
  destruct (EnableSessionCookies (config r)).
  - destruct (Z.ltb_spec lifetime 0); repeat split; intros;
      try congruence; try lia; try discriminate.
    exists (now + lifetime); split; [reflexivity | lia].
  - destruct (Z.eqb_spec lifetime 0); simpl; repeat split; intros;
      try congruence; try lia; try discriminate.
    exists (now + lifetime); split; [reflexivity | lia].
Qed.

Lemma C6_attribute_matrix_witness :
  wired (exampleProxy (exampleConfig "" true "Lax"))
  /\ attributeMatrix (exampleConfig "" true "Lax")
       (cookieDropper (exampleProxy (exampleConfig "" true "Lax")) 1000
          "example.com:8443" "kc-access" "v" Hour)
       1000 "example.com:8443" Hour.
Proof.
  split.
  - split; reflexivity.
  - apply (C6_attribute_matrix (exampleProxy (exampleConfig "" true "Lax"))).
    split; reflexivity.
Defined.

(** C6, as stated, fails: in session mode a positive lifetime sets no
    expiry at all. *)
Lemma C6_session_positive_lifetime :
  wired (exampleProxy (exampleConfig "" true "Lax"))
  /\ ~ attributeMatrixAsStated (exampleConfig "" true "Lax")
       (cookieDropper (exampleProxy (exampleConfig "" true "Lax")) 1000
          "example.com:8443" "kc-access" "v" Hour)
       1000 "example.com:8443" Hour.
Proof.
  split; [split; reflexivity|].
  intros (_ & _ & _ & _ & H).
  assert (P : 0 < Hour) by reflexivity.
  specialize (H P). discriminate H.
Qed.

(** C7: the configured mode [Strict] or [Lax] is carried by every cookie,
    but with the mode [None] the cookie carries no same-site mode at all
    (the zero value), although the chunk budget has reserved the bytes of
    [SameSite=None; ]. *)
Theorem C7_same_site_modes :
  forall r, wired r ->
  forall now host name value lifetime,
    let c := cookieDropper r now host name value lifetime in
    (SameSiteCookie (config r) = SameSiteStrict -> CookieSameSite c = SameSiteStrictMode)
    /\ (SameSiteCookie (config r) = SameSiteLax -> CookieSameSite c = SameSiteLaxMode)
    /\ (SameSiteCookie (config r) = SameSiteNone ->
        CookieSameSite c = SameSiteUnset /\ CookieSameSite c <> SameSiteNoneMode).
Proof.
  intros r W now host name value lifetime c. subst c.
  rewrite (wired_dropper r W). unfold sameSiteOf; simpl.
  split; [|split]; intros E; rewrite E; simpl.
  - reflexivity.
  - reflexivity.
  - split; [reflexivity | discriminate].
Qed.

Lemma C7_same_site_modes_witness :
  wired (exampleProxy (exampleConfig "" true "None"))
  /\ CookieSameSite
       (cookieDropper (exampleProxy (exampleConfig "" true "None")) 1000
          "example.com:8443" "kc-access" "v" Hour) = SameSiteUnset.
Proof.
  split; [split; reflexivity|].
  apply (C7_same_site_modes (exampleProxy (exampleConfig "" true "None"))).
  - split; reflexivity.
  - reflexivity.
Defined.

End AttributePolicy.

(** ** The chunked cookie codec: writing *)

Section Chunking.

Import Cookies.

Local Open Scope nat_scope.

Lemma append_empty_r (s : string) : (s ++ "")%string = s.
Proof. induction s as [|c s IH]; simpl; [|rewrite IH]; reflexivity. Qed.

(** The quotient and remainder that define [continuations]. *)
Lemma continuations_bounds (value : string) (b : nat) :
  0 < b ->
  b * continuations value b <= String.length value - 1
  /\ String.length value - 1 < b * S (continuations value b).
Proof.
  intros Hb. unfold continuations.
  pose proof (Nat.div_mod_eq (String.length value - 1) b) as E.
  pose proof (Nat.mod_upper_bound (String.length value - 1) b) as U.
  split; nia.
Qed.

(** Consecutive chunks concatenate to the slice they span. *)
Lemma chunks_concat (value : string) (b : nat) :
  forall m k,
    fold_right String.append "" (map (chunkBytes value b) (seq k m)) =
    bytes value (k * b) (Nat.min ((k + m) * b) (String.length value)).
Proof.
  unfold chunkBytes, bytes.
  induction m as [|m IH]; intros k.
  - simpl. rewrite Nat.add_0_r.
    replace (Nat.min (k * b) (String.length value) - k * b) with 0 by lia.
    now rewrite substring_zero_length.
  - simpl. rewrite IH.
    destruct (Nat.le_gt_cases ((k + 1) * b) (String.length value)) as [Hle|Hgt].
    + replace (S k * b) with (k * b + (Nat.min ((k + 1) * b) (String.length value) - k * b))
        by nia.
      rewrite substring_adjacent. f_equal. nia.
    + rewrite (substring_past_end value (S k * b)) by nia.
      rewrite append_empty_r. f_equal. nia.
Qed.

(** The slice the loop takes at stride [k] is the [k]-th chunk. *)
Lemma slice_chunk (value : string) (b : Z) (k : nat) :
  (0 < b)%Z ->
  (Z.of_nat k * b < len value)%Z ->
  slice value (Z.of_nat k * b)
    (if (Z.of_nat k * b + b >? len value)%Z then len value
     else (Z.of_nat k * b + b)%Z)
  = Some (chunkBytes value (Z.to_nat b) k).
Proof.
  intros Hb Hlt. unfold slice, chunkBytes, bytes, len in *.
  set (L := String.length value) in *.
  assert (Eb : b = Z.of_nat (Z.to_nat b)) by lia.
  set (bn := Z.to_nat b) in *.
  destruct (Z.gtb_spec (Z.of_nat k * b + b) (Z.of_nat L)) as [Hgt|Hle].
  - replace ((0 <=? Z.of_nat k * b)%Z && (Z.of_nat k * b <=? Z.of_nat L)%Z
             && (Z.of_nat L <=? Z.of_nat L)%Z) with true
      by (symmetry; rewrite !andb_true_iff, !Z.leb_le; nia).
    f_equal. f_equal; nia.
  - replace ((0 <=? Z.of_nat k * b)%Z && (Z.of_nat k * b <=? Z.of_nat k * b + b)%Z
             && (Z.of_nat k * b + b <=? Z.of_nat L)%Z) with true
      by (symmetry; rewrite !andb_true_iff, !Z.leb_le; nia).
    f_equal. f_equal; nia.
Qed.

(** The loop of [dropCookieWithChunks], entered at stride [k] with a
    positive budget: it drops the chunks [k], [k+1], ... up to the last
    and returns. *)
Lemma chunkLoop_spec (r : oauthProxy) (clock : Clock)
    (host name value : string) (duration : Duration) (b : Z) :
  (0 < b)%Z ->
  forall fuel k w,
    1 <= k ->
    S (continuations value (Z.to_nat b)) - k < fuel ->
    chunkLoop fuel r clock host name value duration b (Z.of_nat k * b) w =
    (dropAll r clock w host
       (map (fun j => (chunkName name j, chunkBytes value (Z.to_nat b) j))
          (seq k (S (continuations value (Z.to_nat b)) - k)))
       duration,
     Returned).
Proof.
  intros Hb.
  pose proof (continuations_bounds value (Z.to_nat b)) as B.
  set (n := continuations value (Z.to_nat b)) in *.
  assert (Eb : b = Z.of_nat (Z.to_nat b)) by lia.
  induction fuel as [|fuel IH]; intros k w Hk Hf; [lia|].
  cbn [chunkLoop].
  destruct (Z.ltb_spec (Z.of_nat k * b) (len value)) as [Hlt|Hge].
  - assert (Hkn : k <= n).
    { unfold len in Hlt. destruct B as [_ B2]; [lia|]. nia. }
    unfold div. replace (b =? 0)%Z with false by (symmetry; apply Z.eqb_neq; lia).
    rewrite Z.quot_mul by lia.
    rewrite slice_chunk by assumption.
    replace (Z.of_nat k * b + b)%Z with (Z.of_nat (S k) * b)%Z by lia.
    rewrite IH by lia.
    replace (S n - k) with (S (S n - S k)) by lia.
    cbn [seq map dropAll]. destruct k as [|k]; [lia|]. reflexivity.
  - assert (Hkn : n < k).
    { unfold len in Hge. destruct B as [B1 _]; [lia|].
      destruct (Nat.eq_dec (String.length value) 0) as [E0|E0]; nia. }
    replace (S n - k) with 0 by lia. reflexivity.
Qed.

(** On a wired proxy a run of [dropCookie] calls appends cookies with
    exactly the names and values it was given. *)
Lemma dropAll_names_values (r : oauthProxy) (clock : Clock) (host : string)
    (duration : Duration) :
  wired r ->
  forall items w,
    namesValues (dropAll r clock w host items duration) =
    (namesValues w ++ items)%list.
Proof.
  intros W.
  induction items as [|[n v] items IH]; intros w; cbn [dropAll].
  - now rewrite app_nil_r.
  - rewrite IH. unfold dropCookie, SetCookie, namesValues.
    rewrite map_app, (wired_dropper r W). cbn [map Name Value].
    now rewrite <- app_assoc.
Qed.

(** A run of [dropCookie] calls appends one cookie per call. *)
Lemma dropAll_length (r : oauthProxy) (clock : Clock) (host : string)
    (duration : Duration) :
  forall items w,
    List.length (dropAll r clock w host items duration) =
    List.length w + List.length items.
Proof.
  induction items as [|[n v] items IH]; intros w; cbn [dropAll].
  - simpl; lia.
  - rewrite IH. unfold dropCookie, SetCookie. rewrite length_app. simpl; lia.
Qed.

(** C1: with a positive budget [b], a value of at most [b] bytes is dropped
    whole in one cookie under the base name; a longer value is dropped as
    the base cookie with bytes [0, b) followed by the cookies [name-k] with
    bytes [k*b, min((k+1)*b, len)), [k = 1, 2, ...]; these values, in that
    order, concatenate to the value, and every chunk but the last is
    exactly [b] bytes long.  On a wired proxy the names and values of the
    cookies are the ones handed to [dropCookie]. *)
Theorem C1_chunking_round_trip :
  forall r clock req w name value duration,
    let b := getMaxCookieChunkLength r req name in
    (0 < b)%Z ->
    ((len value <= b)%Z ->
       dropCookieWithChunks r clock req w name value duration =
       (dropCookie r clock w (Host req) name value duration, Returned))
    /\ ((b < len value)%Z ->
        dropCookieWithChunks r clock req w name value duration =
        (dropAll r clock w (Host req) (chunks name value (Z.to_nat b)) duration,
         Returned)
        /\ 1 <= continuations value (Z.to_nat b)
        /\ fold_right String.append "" (map snd (chunks name value (Z.to_nat b)))
           = value
        /\ (forall k, k < continuations value (Z.to_nat b) ->
            String.length (chunkBytes value (Z.to_nat b) k) = Z.to_nat b))
    /\ (wired r ->
        forall items,
          namesValues (dropAll r clock w (Host req) items duration) =
          (namesValues w ++ items)%list).
Proof.
  intros r clock req w name value duration b Hb.
  pose proof (continuations_bounds value (Z.to_nat b)) as B.
  split; [|split].
  - intros Hle. unfold dropCookieWithChunks. fold b.
    replace (len value <=? b)%Z with true by (symmetry; apply Z.leb_le; lia).
    reflexivity.
  - intros Hlt. unfold len in Hlt.
    destruct B as [B1 B2]; [lia|].
    split; [|split; [|split]].
    + unfold dropCookieWithChunks. fold b.
      replace (len value <=? b)%Z with false
        by (symmetry; apply Z.leb_gt; unfold len; lia).
      pose proof (slice_chunk value b 0 Hb) as S0.
      change (Z.of_nat 0 * b)%Z with 0%Z in S0.
      replace (0 + b >? len value)%Z with false in S0
        by (symmetry; unfold len; rewrite Z.gtb_ltb; apply Z.ltb_ge; lia).
      replace (0 + b)%Z with b in S0 by lia.
      rewrite S0 by (unfold len; lia).
      replace b with (Z.of_nat 1 * b)%Z at 2 by lia.
      assert (Hb1 : 1 <= Z.to_nat b) by lia.
      rewrite chunkLoop_spec; [| lia | lia | nia ].
      unfold chunks.
      replace (S (continuations value (Z.to_nat b)) - 1)
        with (continuations value (Z.to_nat b)) by lia.
      reflexivity.
    + nia.
    + unfold chunks. rewrite map_map.
      rewrite (map_ext _ (chunkBytes value (Z.to_nat b)) (fun _ => eq_refl)).
      rewrite (chunks_concat value (Z.to_nat b) (S (continuations value (Z.to_nat b))) 0).
      unfold bytes. cbn [Nat.mul].
      rewrite Nat.sub_0_r. apply substring_all. nia.
    + intros k Hk. unfold chunkBytes, bytes. rewrite substring_length. nia.
  - intros W items. now apply dropAll_names_values.
Qed.

(** The example of the specification: 8100 bytes under a budget of 4011. *)
Lemma C1_chunking_round_trip_witness :
  let r := exampleProxy (exampleConfig "" true "Lax") in
  let req := mkRequest "example.com:8443" [] "/" in
  let value := string_of_list_ascii (repeat "x"%char (Z.to_nat 8100)) in
  (0 < getMaxCookieChunkLength r req "kc-access")%Z
  /\ dropCookieWithChunks r (fun _ => 0%Z) req [] "kc-access" value Hour =
     (dropAll r (fun _ => 0%Z) [] (Host req) (chunks "kc-access" value 4011) Hour,
      Returned)
  /\ map (fun c => (fst c, String.length (snd c))) (chunks "kc-access" value 4011)
     = [("kc-access", 4011); ("kc-access-1", 4011); ("kc-access-2", 78)].
Proof.
  intros r req value.
  assert (Hb : (0 < getMaxCookieChunkLength r req "kc-access")%Z) by reflexivity.
  split; [exact Hb|]. split.
  - apply (C1_chunking_round_trip r (fun _ => 0%Z) req [] "kc-access" value Hour Hb).
    vm_compute. reflexivity.
  - vm_compute. reflexivity.
Defined.

(** C8: the operation does not survive a budget that is not positive.  A
    negative budget makes the first slice expression panic before any
    cookie is written; a zero budget with a non-empty value writes an empty
    base cookie and then panics on the division that numbers the first
    continuation. *)
Theorem C8_non_positive_budget_panics :
  forall r clock req w name value duration,
    let b := getMaxCookieChunkLength r req name in
    ((b < 0)%Z ->
       dropCookieWithChunks r clock req w name value duration =
       (w, Panicked SliceBoundsOutOfRange))
    /\ (b = 0%Z -> value <> "" ->
        dropCookieWithChunks r clock req w name value duration =
        (dropCookie r clock w (Host req) name "" duration,
         Panicked IntegerDivideByZero)).
Proof.
  intros r clock req w name value duration b. split.
  - intros Hb. unfold dropCookieWithChunks. fold b.
    replace (len value <=? b)%Z with false
      by (symmetry; apply Z.leb_gt; unfold len; lia).
    unfold slice.
    replace (0 <=? b)%Z with false by (symmetry; apply Z.leb_gt; lia).
    reflexivity.
  - intros Hb Hv. unfold dropCookieWithChunks. fold b. rewrite Hb.
    assert (HL : (0 < len value)%Z).
    { unfold len. destruct value; [congruence|simpl; lia]. }
    replace (len value <=? 0)%Z with false by (symmetry; apply Z.leb_gt; lia).
    unfold slice.
    replace (0 <=? len value)%Z with true by (symmetry; apply Z.leb_le; lia).
    cbn [Z.leb Z.compare andb Z.sub Z.opp Z.add Z.to_nat].
    rewrite substring_zero_length.
    cbn [chunkLoop].
    replace (0 <? len value)%Z with true by (symmetry; apply Z.ltb_lt; lia).
    reflexivity.
Qed.

Lemma C8_non_positive_budget_panics_witness :
  let r := exampleProxy (exampleConfig "" true "Lax") in
  let req := mkRequest longHost [] "/" in
  (getMaxCookieChunkLength r req "kc-access" < 0)%Z
  /\ dropCookieWithChunks r (fun _ => 0%Z) req [] "kc-access" "token" Hour =
     ([], Panicked SliceBoundsOutOfRange).
Proof.
  intros r req.
  assert (Hb : (getMaxCookieChunkLength r req "kc-access" < 0)%Z)
    by (vm_compute; reflexivity).
  split; [exact Hb|].
  apply (C8_non_positive_budget_panics r (fun _ => 0%Z) req [] "kc-access" "token" Hour).
  exact Hb.
Defined.

End Chunking.

(** ** The chunked cookie codec: clearing *)

Section Clearing.

Import Cookies.

Local Open Scope nat_scope.

(** The loop of [clearDividedCookies], entered at index [i] on a request
    whose contiguous run has length [n]: it clears [name-i], ... up to the
    end of the run or to index [len(req.Cookies()) - 1], whichever comes
    first. *)
Lemma clearDividedLoop_spec (r : oauthProxy) (clock : Clock) (req : Request)
    (name : string) (n : nat) :
  contiguousRun req name n ->
  forall fuel i w,
    1 <= i -> i <= S n ->
    Nat.min n (List.length (Cookies req) - 1) + 1 - i <= fuel ->
    clearDividedLoop fuel r clock req name (Z.of_nat i) w =
    dropAll r clock w (Host req)
      (map (fun k => (chunkName name k, ""))
         (seq i (Nat.min n (List.length (Cookies req) - 1) + 1 - i)))
      (-10 * Hour)%Z.
Proof.
  intros [Hrun Hgap].
  set (L := List.length (Cookies req)).
  induction fuel as [|fuel IH]; intros i w Hi Hin Hf.
  - replace (Nat.min n (L - 1) + 1 - i) with 0 by lia. reflexivity.
  - cbn [clearDividedLoop]. fold L.
    assert (En : (name ++ "-" ++ Itoa (Z.of_nat i))%string = chunkName name i)
      by (destruct i; [lia | reflexivity]).
    rewrite En.
    destruct (Z.ltb_spec (Z.of_nat i) (Z.of_nat L)) as [Hlt|Hge].
    + destruct (Nat.eq_dec i (S n)) as [E|NE].
      * subst i. rewrite Hgap.
        replace (Nat.min n (L - 1) + 1 - S n) with 0 by lia. reflexivity.
      * destruct (requestCookie req (chunkName name i)) eqn:Hc.
        2:{ exfalso. apply (Hrun i); [lia | exact Hc]. }
        replace (Z.of_nat i + 1)%Z with (Z.of_nat (S i)) by lia.
        rewrite IH by lia.
        replace (Nat.min n (L - 1) + 1 - i)
          with (S (Nat.min n (L - 1) + 1 - S i)) by lia.
        reflexivity.
    + replace (Nat.min n (L - 1) + 1 - i) with 0 by lia. reflexivity.
Qed.

(** A run of [dropCookie] calls leaves the cookies already in the response
    where they are. *)
Lemma dropAll_keeps (r : oauthProxy) (clock : Clock) (host : string)
    (duration : Duration) :
  forall items w j x,
    nth_error w j = Some x ->
    nth_error (dropAll r clock w host items duration) j = Some x.
Proof.
  induction items as [|[n v] items IH]; intros w j x H; cbn [dropAll].
  - exact H.
  - apply IH. unfold dropCookie, SetCookie.
    rewrite nth_error_app1; [exact H|].
    apply nth_error_Some; congruence.
Qed.

(** On a wired proxy, a cookie dropped with a negative lifetime expires
    that much before the instant it was built at. *)
Lemma dropAll_expires (r : oauthProxy) (clock : Clock) (host : string)
    (duration : Duration) :
  wired r -> (duration < 0)%Z ->
  forall items w i c,
    List.length w <= i ->
    nth_error (dropAll r clock w host items duration) i = Some c ->
    Expires c = Some (Add (clock i) duration).
Proof.
  intros W Hd.
  induction items as [|[n v] items IH]; intros w i c Hi Hc; cbn [dropAll] in Hc.
  - assert (i < List.length w) by (apply nth_error_Some; congruence). lia.
  - destruct (Nat.eq_dec i (List.length w)) as [E|NE].
    + subst i.
      assert (P : nth_error (dropAll r clock (dropCookie r clock w host n v duration)
                               host items duration) (List.length w)
                  = Some (cookieDropper r (clock (List.length w)) host n v duration)).
      { apply dropAll_keeps. unfold dropCookie, SetCookie.
        rewrite nth_error_app2 by lia. rewrite Nat.sub_diag. reflexivity. }
      rewrite P in Hc. injection Hc as <-.
      rewrite (wired_dropper r W). cbn [Expires].
      replace (duration <? 0)%Z with true by (symmetry; apply Z.ltb_lt; lia).
      replace (duration =? 0)%Z with false by (symmetry; apply Z.eqb_neq; lia).
      destruct (EnableSessionCookies (config r)); reflexivity.
    + apply (IH (dropCookie r clock w host n v duration)); [|exact Hc].
      unfold dropCookie, SetCookie. rewrite length_app. simpl. lia.
Qed.

(** C2 (amended): clearing the access cookie always drops an
    immediate-expiry cookie for the base name, then one for [name-k] for
    exactly every [k] from 1 to the smaller of [n], the length of the
    maximal contiguous run of continuation names on the request, and
    [len(req.Cookies()) - 1]; so a request that carries more cookies than
    the run is long (the base cookie too, say) has its whole run cleared,
    and a gap ends the clearing.  Each clearing cookie has an empty value
    and an expiry ten hours before the instant it is built at. *)
Theorem C2_clearing_divided_cookies :
  forall r clock req w n,
    contiguousRun req (CookieAccessName (config r)) n ->
    let name := CookieAccessName (config r) in
    let m := Nat.min n (List.length (Cookies req) - 1) in
    let cleared := (name, "") :: map (fun k => (chunkName name k, "")) (seq 1 m) in
    clearAccessTokenCookie r clock req w =
      dropAll r clock w (Host req) cleared (-10 * Hour)%Z
    /\ (n < List.length (Cookies req) -> m = n)
    /\ (wired r ->
        namesValues (clearAccessTokenCookie r clock req w) =
          (namesValues w ++ cleared)%list
        /\ forall i c,
            List.length w <= i ->
            nth_error (clearAccessTokenCookie r clock req w) i = Some c ->
            exists t, Expires c = Some t /\ (t < clock i)%Z).
Proof.
  intros r clock req w n Hrun name m cleared.
  assert (E : clearAccessTokenCookie r clock req w =
              dropAll r clock w (Host req) cleared (-10 * Hour)%Z).
  { unfold clearAccessTokenCookie, clearDividedCookies. fold name.
    replace 1%Z with (Z.of_nat 1) by reflexivity.
    rewrite (clearDividedLoop_spec r clock req name n Hrun) by lia.
    subst cleared m. cbn [dropAll].
    replace (Nat.min n (List.length (Cookies req) - 1) + 1 - 1)
      with (Nat.min n (List.length (Cookies req) - 1)) by lia.
    reflexivity. }
  split; [exact E|]. split; [subst m; lia|].
  intros W. rewrite E. split.
  - now apply dropAll_names_values.
  - intros i c Hi Hc.
    exists (Add (clock i) (-10 * Hour)%Z). split.
    + apply (dropAll_expires r clock (Host req) (-10 * Hour)%Z W) with (2 := Hi) (3 := Hc).
      reflexivity.
    + unfold Add, Hour. lia.
Qed.

(** The example of the specification: [base], [base-1] and [base-3] are on
    the request; [base] and [base-1] are cleared and nothing else. *)
Lemma C2_clearing_divided_cookies_witness :
  let r := exampleProxy (exampleConfig "" true "Lax") in
  let req :=
    mkRequest "example.com:8443"
      [("kc-access", "a"); ("kc-access-1", "b"); ("kc-access-3", "c")] "/" in
  contiguousRun req "kc-access" 1
  /\ namesValues (clearAccessTokenCookie r (fun _ => 0%Z) req []) =
     [("kc-access", ""); ("kc-access-1", "")].
Proof.
  intros r req.
  assert (Hrun : contiguousRun req (CookieAccessName (config r)) 1).
  { split.
    - intros k Hk. assert (k = 1) by lia. subst k. vm_compute. discriminate.
    - vm_compute. reflexivity. }
  split; [exact Hrun|].
  destruct (C2_clearing_divided_cookies r (fun _ => 0%Z) req [] 1 Hrun)
    as (_ & _ & H).
  destruct H as [H _]; [split; reflexivity|].
  exact H.
Defined.

(** C2, as stated, fails: a request whose only cookie is [kc-access-1] has
    a contiguous run of length 1, and only the base name is cleared. *)
Lemma C2_lone_continuation_not_cleared :
  contiguousRun (mkRequest "example.com:8443" [("kc-access-1", "b")] "/")
    "kc-access" 1
  /\ ~ clearsWholeRun (exampleProxy (exampleConfig "" true "Lax")) (fun _ => 0%Z)
         (mkRequest "example.com:8443" [("kc-access-1", "b")] "/") [] 1.
Proof.
  split.
  - split.
    + intros k Hk. assert (k = 1) by lia. subst k. vm_compute. discriminate.
    + vm_compute. reflexivity.
  - unfold clearsWholeRun. vm_compute. discriminate.
Qed.

End Clearing.

(** ** The chunked cookie codec: further properties *)

Section CodecFacts.

Import Cookies.

Local Open Scope nat_scope.

Lemma string_length_append (a b : string) :
  String.length (a ++ b) = String.length a + String.length b.
Proof. induction a as [|c a IH]; simpl; [|rewrite IH]; reflexivity. Qed.

Lemma string_append_inj_l (a b c : string) :
  (a ++ b)%string = (a ++ c)%string -> b = c.
Proof.
  induction a as [|x a IH]; simpl; intros H; [exact H|].
  injection H as H. now apply IH.
Qed.

(** [strconv.Itoa] is injective. *)
Lemma Itoa_inj (a b : Z) : Itoa a = Itoa b -> a = b.
Proof.
  unfold Itoa. intros H. apply DecimalZ.to_int_inj.
  assert (R : forall z,
            NilZero.int_of_string (NilZero.string_of_int (Z.to_int z))
            = Some (Z.to_int z)).
  { intros z. apply NilZero.isi; destruct z; simpl; try discriminate;
      intros E; injection E; apply DecimalPos.Unsigned.to_uint_nonnil. }
  pose proof (R a) as Ra. rewrite H, R in Ra. now injection Ra.
Qed.

(** The cookies of a divided set have pairwise different names. *)
Lemma chunkName_inj (name : string) (j k : nat) :
  chunkName name j = chunkName name k -> j = k.
Proof.
  destruct j as [|j], k as [|k]; cbn [chunkName]; intros H.
  - reflexivity.
  - exfalso. apply (f_equal String.length) in H.
    rewrite string_length_append in H. simpl in H. lia.
  - exfalso. apply (f_equal String.length) in H.
    rewrite string_length_append in H. simpl in H. lia.
  - apply string_append_inj_l in H.
    apply (string_append_inj_l "-") in H.
    apply Itoa_inj in H. lia.
Qed.

(** With a positive budget [dropCookieWithChunks] drops exactly the
    cookies of [chunks], a single one when the value fits, and returns. *)
Lemma dropCookieWithChunks_positive (r : oauthProxy) (clock : Clock)
    (req : Request) (w : ResponseWriter) (name value : string)
    (duration : Duration) :
  (0 < getMaxCookieChunkLength r req name)%Z ->
  dropCookieWithChunks r clock req w name value duration =
  (dropAll r clock w (Host req)
     (chunks name value (Z.to_nat (getMaxCookieChunkLength r req name))) duration,
   Returned).
Proof.
  intros Hb.
  set (b := getMaxCookieChunkLength r req name) in *.
  pose proof (continuations_bounds value (Z.to_nat b)) as B.
  destruct B as [B1 B2]; [lia|].
  assert (Hb1 : 1 <= Z.to_nat b) by lia.
  unfold dropCookieWithChunks. fold b.
  destruct (Z.leb_spec (len value) b) as [Hle|Hlt]; unfold len in *.
  - unfold chunks.
    replace (continuations value (Z.to_nat b)) with 0 by nia.
    cbn [seq map dropAll chunkName]. unfold chunkBytes, bytes.
    cbn [Nat.mul]. rewrite Nat.sub_0_r, substring_all by lia. reflexivity.
  - pose proof (slice_chunk value b 0 Hb) as S0.
    change (Z.of_nat 0 * b)%Z with 0%Z in S0.
    replace (0 + b >? len value)%Z with false in S0
      by (symmetry; unfold len; rewrite Z.gtb_ltb; apply Z.ltb_ge; lia).
    replace (0 + b)%Z with b in S0 by lia.
    rewrite S0 by (unfold len; lia).
    replace b with (Z.of_nat 1 * b)%Z at 2 by lia.
    rewrite chunkLoop_spec; [| lia | lia | nia ].
    unfold chunks.
    replace (S (continuations value (Z.to_nat b)) - 1)
      with (continuations value (Z.to_nat b)) by lia.
    reflexivity.
Qed.

(** [dropCookieWithChunks] returns exactly when the budget is positive or
    the value fits in it; otherwise it panics, and it never exhausts the
    bound of its loop. *)
Theorem dropCookieWithChunks_returns_iff :
  forall r clock req w name value duration,
    let b := getMaxCookieChunkLength r req name in
    let end_ := snd (dropCookieWithChunks r clock req w name value duration) in
    (end_ = Returned <-> (0 < b)%Z \/ (len value <= b)%Z)
    /\ end_ <> OutOfFuel.
Proof.
  intros r clock req w name value duration b end_. subst end_.
  destruct (Z.lt_trichotomy 0 b) as [Hpos|[Hz|Hneg]].
  - rewrite dropCookieWithChunks_positive by exact Hpos. simpl.
    split; [|discriminate]. split; auto.
  - destruct (Z.leb_spec (len value) b) as [Hle|Hlt].
    + unfold dropCookieWithChunks. fold b.
      replace (len value <=? b)%Z with true by (symmetry; apply Z.leb_le; lia).
      simpl. split; [|discriminate]. split; auto.
    + unfold dropCookieWithChunks. fold b.
      replace (len value <=? b)%Z with false by (symmetry; apply Z.leb_gt; lia).
      rewrite <- Hz in *. unfold slice.
      replace (0 <=? len value)%Z with true by (symmetry; apply Z.leb_le; lia).
      cbn [Z.leb Z.compare andb chunkLoop].
      replace (0 <? len value)%Z with true by (symmetry; apply Z.ltb_lt; lia).
      simpl. split; [|discriminate]. split; [discriminate|lia].
  - assert (HL : (0 <= len value)%Z) by (unfold len; lia).
    unfold dropCookieWithChunks. fold b.
    replace (len value <=? b)%Z with false by (symmetry; apply Z.leb_gt; lia).
    unfold slice.
    replace (0 <=? b)%Z with false by (symmetry; apply Z.leb_gt; lia).
    simpl. split; [|discriminate]. split; [discriminate|lia].
Qed.

(** When a value is divided, every cookie of the set carries at least one
    byte and at most the budget, the set has at least two cookies, and
    their names are pairwise different. *)
Theorem divided_cookies_within_budget :
  forall r clock req w name value duration,
    wired r ->
    let b := getMaxCookieChunkLength r req name in
    (0 < b)%Z -> (b < len value)%Z ->
    let set := chunks name value (Z.to_nat b) in
    namesValues (fst (dropCookieWithChunks r clock req w name value duration))
    = (namesValues w ++ set)%list
    /\ Forall (fun nv => 1 <= String.length (snd nv) <= Z.to_nat b) set
    /\ 2 <= List.length set
    /\ NoDup (map fst set).
Proof.
  intros r clock req w name value duration W b Hb Hlt set.
  pose proof (continuations_bounds value (Z.to_nat b)) as B.
  destruct B as [B1 B2]; [lia|]. unfold len in Hlt.
  split; [|split; [|split]].
  - rewrite dropCookieWithChunks_positive by exact Hb. cbn [fst].
    now apply dropAll_names_values.
  - subst set. unfold chunks. apply Forall_map, Forall_forall.
    intros k Hk. apply in_seq in Hk. cbn [snd].
    unfold chunkBytes, bytes. rewrite substring_length. nia.
  - subst set. unfold chunks. rewrite length_map, length_seq. nia.
  - subst set. unfold chunks. rewrite map_map. cbn [fst].
    apply Injective_map_NoDup; [|apply seq_NoDup].
    intros j k. apply chunkName_inj.
Qed.

Lemma divided_cookies_within_budget_witness :
  let r := exampleProxy (exampleConfig "" true "Lax") in
  let req := mkRequest "example.com:8443" [] "/" in
  let value := string_of_list_ascii (repeat "x"%char (Z.to_nat 8100)) in
  wired r
  /\ (0 < getMaxCookieChunkLength r req "kc-access")%Z
  /\ (getMaxCookieChunkLength r req "kc-access" < len value)%Z
  /\ NoDup (map fst (chunks "kc-access" value
                       (Z.to_nat (getMaxCookieChunkLength r req "kc-access")))).
Proof.
  intros r req value.
  assert (W : wired r) by (split; reflexivity).
  assert (H1 : (0 < getMaxCookieChunkLength r req "kc-access")%Z) by reflexivity.
  assert (H2 : (getMaxCookieChunkLength r req "kc-access" < len value)%Z)
    by (vm_compute; reflexivity).
  split; [exact W|]. split; [exact H1|]. split; [exact H2|].
  apply (divided_cookies_within_budget r (fun _ => 0%Z) req [] "kc-access" value
           Hour W H1 H2).
Defined.

Lemma dropAll_app (r : oauthProxy) (clock : Clock) (host : string)
    (duration : Duration) :
  forall a b w,
    dropAll r clock w host (a ++ b) duration =
    dropAll r clock (dropAll r clock w host a duration) host b duration.
Proof.
  induction a as [|[n v] a IH]; intros b w; cbn [app dropAll]; [reflexivity|].
  apply IH.
Qed.

(** Clearing under any base name: the base cookie, then the continuations
    the loop reaches. *)
Lemma clearNamed_spec (r : oauthProxy) (clock : Clock) (req : Request)
    (w : ResponseWriter) (name : string) (n : nat) :
  contiguousRun req name n ->
  clearDividedCookies r clock req
    (dropCookie r clock w (Host req) name "" (-10 * Hour)%Z) name =
  dropAll r clock w (Host req)
    (clearingOf name (Nat.min n (List.length (Cookies req) - 1))) (-10 * Hour)%Z.
Proof.
  intros Hrun. unfold clearDividedCookies, clearingOf.
  replace 1%Z with (Z.of_nat 1) by reflexivity.
  rewrite (clearDividedLoop_spec r clock req name n Hrun) by lia.
  cbn [dropAll].
  replace (Nat.min n (List.length (Cookies req) - 1) + 1 - 1)
    with (Nat.min n (List.length (Cookies req) - 1)) by lia.
  reflexivity.
Qed.

(** Looking a cookie name up among the cookies of a divided set. *)
Lemma find_chunkName (name : string) (f : nat -> string) (k : nat) :
  forall m a,
    find (fun c => String.eqb (fst c) (chunkName name k))
      (map (fun j => (chunkName name j, f j)) (seq a m))
    = if (a <=? k) && (k <? a + m) then Some (chunkName name k, f k) else None.
Proof.
  induction m as [|m IH]; intros a.
  - simpl. destruct (Nat.leb_spec a k), (Nat.ltb_spec k (a + 0));
      try reflexivity; lia.
  - cbn [seq map find fst]. destruct (String.eqb_spec (chunkName name a) (chunkName name k)) as [E|NE].
    + apply chunkName_inj in E. subst a.
      replace (k <=? k) with true by (symmetry; apply Nat.leb_le; lia).
      replace (k <? k + S m) with true by (symmetry; apply Nat.ltb_lt; lia).
      reflexivity.
    + rewrite IH. assert (a <> k) by congruence.
      destruct (Nat.leb_spec a k), (Nat.leb_spec (S a) k),
        (Nat.ltb_spec k (a + S m)), (Nat.ltb_spec k (S a + m));
        try reflexivity; lia.
Qed.

(** What was written is cleared: when a request brings back exactly the
    cookies that [dropAccessTokenCookie] wrote under a positive budget,
    [clearAccessTokenCookie] drops a clearing cookie for each of them, in
    the same order, and for nothing else. *)
Theorem written_cookies_are_cleared :
  forall r clock clock' req value duration host' uri',
    wired r ->
    (0 < getMaxCookieChunkLength r req (CookieAccessName (config r)))%Z ->
    let written :=
      namesValues (fst (dropAccessTokenCookie r clock req [] value duration)) in
    namesValues (clearAccessTokenCookie r clock' (mkRequest host' written uri') [])
    = map (fun nv => (fst nv, "")) written.
Proof.
  intros r clock clock' req value duration host' uri' W Hb written.
  set (name := CookieAccessName (config r)) in *.
  set (b := Z.to_nat (getMaxCookieChunkLength r req name)).
  set (n := continuations value b).
  assert (Ew : written = chunks name value b).
  { subst written. unfold dropAccessTokenCookie. fold name.
    rewrite dropCookieWithChunks_positive by exact Hb. cbn [fst].
    rewrite dropAll_names_values by exact W. reflexivity. }
  clearbody written. subst written.
  assert (Hrun : contiguousRun (mkRequest host' (chunks name value b) uri') name n).
  { unfold contiguousRun, requestCookie, chunks. cbn [Cookies]. fold n. split.
    - intros k Hk. rewrite find_chunkName.
      replace ((0 <=? k) && (k <? 0 + S n)) with true; [discriminate|].
      symmetry. apply andb_true_iff. split; [apply Nat.leb_le|apply Nat.ltb_lt]; lia.
    - rewrite find_chunkName.
      replace (S n <? 0 + S n) with false by (symmetry; apply Nat.ltb_ge; lia).
      now rewrite andb_false_r. }
  unfold clearAccessTokenCookie. fold name.
  rewrite (clearNamed_spec r clock' _ [] name n Hrun).
  rewrite dropAll_names_values by exact W.
  cbn [namesValues map app Cookies Host]. unfold chunks at 1. fold n.
  rewrite length_map, length_seq.
  replace (Nat.min n (S n - 1)) with n by lia.
  unfold clearingOf, chunks. fold n. cbn [seq map fst].
  f_equal. rewrite map_map. cbn [fst]. reflexivity.
Qed.

Lemma written_cookies_are_cleared_witness :
  let r := exampleProxy (exampleConfig "" true "Lax") in
  let req := mkRequest "example.com:8443" [] "/" in
  let value := string_of_list_ascii (repeat "x"%char (Z.to_nat 8100)) in
  wired r
  /\ (0 < getMaxCookieChunkLength r req (CookieAccessName (config r)))%Z
  /\ map fst
       (namesValues
          (clearAccessTokenCookie r (fun _ => 0%Z)
             (mkRequest "example.com:8443"
                (namesValues
                   (fst (dropAccessTokenCookie r (fun _ => 0%Z) req [] value Hour)))
                "/") []))
     = ["kc-access"; "kc-access-1"; "kc-access-2"].
Proof.
  intros r req value.
  assert (W : wired r) by (split; reflexivity).
  assert (H1 : (0 < getMaxCookieChunkLength r req (CookieAccessName (config r)))%Z)
    by reflexivity.
  split; [exact W|]. split; [exact H1|].
  rewrite (written_cookies_are_cleared r (fun _ => 0%Z) (fun _ => 0%Z) req value
             Hour "example.com:8443" "/" W H1).
  vm_compute. reflexivity.
Defined.

(** [clearAllCookies] clears the access set, then the refresh set, then
    the state set, each up to the end of its contiguous run or to the cap
    of the loop; on a wired proxy every cookie it drops has an empty value
    and an expiry already past. *)
Theorem clearAllCookies_clears_three_sets :
  forall requestStateCookie r clock req w n1 n2 n3,
    contiguousRun req (CookieAccessName (config r)) n1 ->
    contiguousRun req (CookieRefreshName (config r)) n2 ->
    contiguousRun req requestStateCookie n3 ->
    let cap := List.length (Cookies req) - 1 in
    let cleared :=
      (clearingOf (CookieAccessName (config r)) (Nat.min n1 cap)
       ++ clearingOf (CookieRefreshName (config r)) (Nat.min n2 cap)
       ++ clearingOf requestStateCookie (Nat.min n3 cap))%list in
    clearAllCookies requestStateCookie r clock req w =
      dropAll r clock w (Host req) cleared (-10 * Hour)%Z
    /\ (wired r ->
        namesValues (clearAllCookies requestStateCookie r clock req w)
        = (namesValues w ++ cleared)%list
        /\ forall i c,
            List.length w <= i ->
            nth_error (clearAllCookies requestStateCookie r clock req w) i = Some c ->
            exists t, Expires c = Some t /\ (t < clock i)%Z).
Proof.
  intros st r clock req w n1 n2 n3 H1 H2 H3 cap cleared.
  assert (E : clearAllCookies st r clock req w =
              dropAll r clock w (Host req) cleared (-10 * Hour)%Z).
  { unfold clearAllCookies, clearAccessTokenCookie, clearRefreshTokenCookie,
      clearStateCookie.
    rewrite (clearNamed_spec r clock req w _ n1 H1).
    rewrite (clearNamed_spec r clock req _ _ n2 H2).
    rewrite (clearNamed_spec r clock req _ _ n3 H3).
    subst cleared cap. now rewrite !dropAll_app. }
  split; [exact E|]. intros W. rewrite E. split.
  - now apply dropAll_names_values.
  - intros i c Hi Hc. exists (Add (clock i) (-10 * Hour)%Z). split.
    + apply (dropAll_expires r clock (Host req) (-10 * Hour)%Z W) with (2 := Hi) (3 := Hc).
      reflexivity.
    + unfold Add, Hour. lia.
Qed.

Lemma clearAllCookies_clears_three_sets_witness :
  let r := exampleProxy (exampleConfig "" true "Lax") in
  let req :=
    mkRequest "example.com:8443"
      [("kc-access", "a"); ("kc-access-1", "b"); ("kc-state", "c")] "/" in
  contiguousRun req "kc-access" 1
  /\ contiguousRun req "kc-state" 0
  /\ contiguousRun req "request_state" 0
  /\ namesValues (clearAllCookies "request_state" r (fun _ => 0%Z) req []) =
     [("kc-access", ""); ("kc-access-1", ""); ("kc-state", "");
      ("request_state", "")].
Proof.
  intros r req.
  assert (H1 : contiguousRun req (CookieAccessName (config r)) 1).
  { split.
    - intros k Hk. assert (k = 1) by lia. subst k. vm_compute. discriminate.
    - vm_compute. reflexivity. }
  assert (H2 : contiguousRun req (CookieRefreshName (config r)) 0).
  { split; [intros k Hk; lia | vm_compute; reflexivity]. }
  assert (H3 : contiguousRun req "request_state" 0).
  { split; [intros k Hk; lia | vm_compute; reflexivity]. }
  split; [exact H1|]. split; [exact H2|]. split; [exact H3|].
  destruct (clearAllCookies_clears_three_sets "request_state" r (fun _ => 0%Z)
              req [] 1 0 0 H1 H2 H3) as [_ H].
  destruct H as [H _]; [split; reflexivity|]. exact H.
Defined.

(** [writeStateParameterCookie] returns the identifier it was given and
    drops two cookies, the encoded request URI and the identifier, and on
    a wired proxy neither has an expiry, whatever the configuration. *)
Theorem writeStateParameterCookie_transient :
  forall requestURICookie requestStateCookie base64Encode r clock uuid req w,
    wired r ->
    let out :=
      writeStateParameterCookie requestURICookie requestStateCookie base64Encode
        r clock uuid req w in
    snd out = uuid
    /\ namesValues (fst out)
       = (namesValues w
          ++ [(requestURICookie, base64Encode (RequestURI req));
              (requestStateCookie, uuid)])%list
    /\ forall i c,
         List.length w <= i -> nth_error (fst out) i = Some c -> Expires c = None.
Proof.
  intros uriName stateName enc r clock uuid req w W out. subst out.
  unfold writeStateParameterCookie. cbn [fst snd].
  split; [reflexivity|]. split.
  - unfold dropCookie, SetCookie, namesValues.
    rewrite !map_app, !(wired_dropper r W). cbn [map Name Value].
    now rewrite <- app_assoc.
  - intros i c Hi Hc. unfold dropCookie, SetCookie in Hc.
    rewrite !(wired_dropper r W) in Hc.
    rewrite <- app_assoc in Hc. cbn [app] in Hc.
    rewrite nth_error_app2 in Hc by lia.
    destruct (i - List.length w) as [|[|k]]; cbn [nth_error] in Hc.
    + injection Hc as <-. cbn [Expires].
      destruct (EnableSessionCookies (config r)); reflexivity.
    + injection Hc as <-. cbn [Expires].
      destruct (EnableSessionCookies (config r)); reflexivity.
    + destruct k; discriminate.
Qed.

Lemma writeStateParameterCookie_transient_witness :
  let r := exampleProxy (exampleConfig "" false "Lax") in
  let req := mkRequest "example.com:8443" [] "/admin" in
  wired r
  /\ snd (writeStateParameterCookie "request_uri" "request_state" (fun u => u) r
            (fun _ => 0%Z) "c0ffee" req []) = "c0ffee".
Proof.
  intros r req.
  assert (W : wired r) by (split; reflexivity).
  split; [exact W|].
  apply (writeStateParameterCookie_transient "request_uri" "request_state"
           (fun u => u) r (fun _ => 0%Z) "c0ffee" req [] W).
Defined.

(** [makeCookieDropper] never reaches its [panic]: it returns a closure in
    every configuration, and the cookie the closure builds has the name and
    value it was given, the path [/], and the secure and HTTP-only flags
    of the configuration. *)
Theorem makeCookieDropper_total :
  forall config,
    exists d,
      makeCookieDropper config = Some d
      /\ forall now host name value duration,
          let c := d now host name value duration in
          Name c = name /\ Value c = value /\ Path c = "/"%string
          /\ Secure c = SecureCookie config
          /\ HttpOnly c = HTTPOnlyCookie config.
Proof.
  intros config.
  destruct (makeCookieDropper_closed_form config) as [d [E H]].
  exists d. split; [exact E|]. intros. subst c. rewrite H. cbn.
  repeat split; reflexivity.
Qed.

Lemma beforeColon_idem (h p : string) :
  beforeColon (beforeColon h ++ ":" ++ p) = beforeColon h.
Proof.
  induction h as [|c h IH]; [reflexivity|].
  cbn [beforeColon]. destruct (Ascii.eqb c ":") eqn:E; [reflexivity|].
  cbn [append beforeColon]. rewrite E. f_equal. exact IH.
Qed.

(** The chunk budget: it is at most 4061 bytes less the name; the name
    costs its length; the host costs the length of its part before the
    colon when no cookie domain is configured and nothing otherwise, so the
    port never matters. *)
Theorem chunk_budget_shape :
  forall config host name,
    (makeCookieChunker config host name <= 4061 - len name)%Z
    /\ makeCookieChunker config host name
       = (makeCookieChunker config host "" - len name)%Z
    /\ (forall host',
          makeCookieChunker config host' name
          = (makeCookieChunker config host name
             + (if String.eqb (CookieDomain config) ""
                then len (beforeColon host) - len (beforeColon host')
                else 0))%Z)
    /\ (forall port,
          makeCookieChunker config (beforeColon host ++ ":" ++ port) name
          = makeCookieChunker config host name).
Proof.
  intros config host name.
  assert (L : forall x, (0 <= len x)%Z) by (intros; unfold len; lia).
  pose proof (L (CookieDomain config)). pose proof (L (beforeColon host)).
  pose proof (L name).
  pose proof (L ("SameSite=" ++ SameSiteCookie config ++ "; ")%string).
  unfold makeCookieChunker, baseCookieChunkLength, cookieMargin.
  change (len "set-cookie: ") with 12%Z. change (len "; Path=/") with 8%Z.
  change (len "HttpOnly; ") with 10%Z. change (len "Secure") with 6%Z.
  change (len "Domain=; ") with 9%Z.
  change (len "Expires=Mon, 02 Jan 2006 03:04:05 MST; ") with 39%Z.
  change (len "") with 0%Z.
  destruct (HTTPOnlyCookie config), (EnableSessionCookies config),
    (String.eqb (SameSiteCookie config) ""), (SecureCookie config),
    (String.eqb (CookieDomain config) ""); cbn [negb]; cbv zeta;
    change (len "") with 0%Z;
    (split; [lia|]); (split; [lia|]);
    (split; [intros host'; try lia|intros port; rewrite ?beforeColon_idem; lia]).
Qed.

End CodecFacts.

(** ** Cookie filtering *)

Section Filtering.

Import Cookies.

Lemma matchesFilter_existsb (name : string) (filter : list string) :
  matchesFilter name filter = existsb (fun n => String.prefix n name) filter.
Proof.
  induction filter as [|n filter IH]; [reflexivity|].
  cbn [matchesFilter existsb]. unfold HasPrefix.
  destruct (String.prefix n name); [reflexivity|exact IH].
Qed.

Lemma filterLoop_spec (filter : list string) :
  forall cookies acc,
    filterLoop cookies filter acc = (acc ++ map (redacted filter) cookies)%list.
Proof.
  induction cookies as [|x cookies IH]; intros acc; cbn [filterLoop map].
  - now rewrite app_nil_r.
  - assert (R : redacted filter x
                = if matchesFilter (fst x) filter then (fst x, "redacted"%string) else x)
      by (unfold redacted; now rewrite matchesFilter_existsb).
    rewrite R.
    destruct (matchesFilter (fst x) filter); rewrite IH; unfold AddCookie;
      now rewrite <- app_assoc.
Qed.

(** [filterCookies] never fails and leaves the host alone; it keeps every
    cookie, in order and under its name, and replaces the value by
    [redacted] exactly for the cookies whose name starts with one of the
    filtered prefixes. *)
Theorem filterCookies_redacts :
  forall req filter,
    let out := fst (filterCookies req filter) in
    snd (filterCookies req filter) = None
    /\ Host out = Host req
    /\ Cookies out = map (redacted filter) (Cookies req)
    /\ map fst (Cookies out) = map fst (Cookies req)
    /\ (forall c, In c (Cookies req) ->
          (existsb (fun n => String.prefix n (fst c)) filter = false ->
           In c (Cookies out))
          /\ (existsb (fun n => String.prefix n (fst c)) filter = true ->
              In (fst c, "redacted"%string) (Cookies out))).
Proof.
  intros req filter out. subst out. unfold filterCookies. cbn [fst snd Host Cookies].
  rewrite filterLoop_spec. cbn [app].
  split; [reflexivity|]. split; [reflexivity|]. split; [reflexivity|]. split.
  - rewrite map_map. apply map_ext. intros c. unfold redacted.
    destruct (existsb _ filter); reflexivity.
  - intros c Hc. split; intros E; apply in_map_iff; exists c;
      (split; [unfold redacted; now rewrite E | exact Hc]).
Qed.

(** Filtering twice with one filter is filtering once. *)
Theorem filterCookies_idempotent :
  forall req filter,
    filterCookies (fst (filterCookies req filter)) filter = filterCookies req filter.
Proof.
  intros req filter. unfold filterCookies. cbn [fst Host Cookies RequestURI].
  rewrite !filterLoop_spec. cbn [app]. rewrite map_map.
  f_equal. f_equal. apply map_ext. intros c. unfold redacted.
  destruct (existsb (fun n => String.prefix n (fst c)) filter) eqn:E; cbn [fst];
    now rewrite E.
Qed.

End Filtering.

(** ** The credential renewal loop *)

Section Renewal.

Import Forwarding.

Variable config : Config.
Variable parseToken : string -> result (JWT * Identity).

(** C3: while logged in (the login flag is down and an identity is held),
    a refresh that fails, whatever the error, raises the login flag and
    ends the turn with [continue], with no timed wait in the turn and the
    same state and control whatever the error, which shows only in the
    severity of the last log entry; and with no refresh token at all the
    login flag is raised in a turn without any call to the identity
    provider and without any timed wait. *)
Theorem C3_refresh_failure_needs_login :
  forall env s,
    ctxDone env = false ->
    login s = false ->
    identity s <> None ->
    let out := iteration config parseToken env s in
    (refresh s <> "" ->
     forall e, refreshResult env = Err e ->
       outcomeOf out = Continue
       /\ finalState out = setLogin true (setWait false s)
       /\ login (finalState out) = true
       /\ existsb isSleep (events (traceOf out)) = false
       /\ logLevels (events (traceOf out)) = [LogInfo; LogInfo; refreshFailureLevel e])
    /\ (refresh s = "" ->
        outcomeOf out = Continue
        /\ login (finalState out) = true
        /\ existsb isNetworkCall (events (traceOf out)) = false
        /\ existsb isSleep (events (traceOf out)) = false).
Proof.
  intros env s Hctx Hlogin Hid out. subst out.
  destruct s as [tok rt idt ex lg wt]. simpl in Hlogin, Hid. subst lg.
  destruct idt as [idt|]; [|congruence].
  unfold iteration. rewrite Hctx.
  split.
  - intros Hrt e He. simpl in Hrt.
    apply String.eqb_neq in Hrt.
    unfold bind, locked, read, tell, ret, outcomeOf, finalState, traceOf, events;
      simpl.
    rewrite Hrt, He. simpl.
    destruct e; simpl; repeat split; reflexivity.
  - intros Hrt. simpl in Hrt. subst rt.
    unfold waitStep, bind, locked, read, tell, ret, outcomeOf, finalState,
      traceOf, events; simpl.
    repeat split; reflexivity.
Qed.

(** C10: a login that fails, or a parse of the fresh access token that
    fails, leaves every field of the shared state as it was when the
    attempt started, that is as the section at the top of the loop, which
    only lowers the wait flag, left it; so on a state whose wait flag is
    down the whole turn changes nothing.  A refresh that fails raises the
    login flag and changes nothing else: token, refresh token, identity
    and expiry keep their values in every state of the turn. *)
Theorem C10_failures_frame :
  forall env s,
    ctxDone env = false ->
    let out := iteration config parseToken env s in
    (login s = true ->
     (exists e, loginResult env = Err e)
     \/ (exists resp e, loginResult env = Ok resp
                        /\ parseToken (AccessToken resp) = Err e) ->
       finalState out = setWait false s
       /\ Forall (fun es => snd es = setWait false s) (traceOf out)
       /\ (wait s = false -> finalState out = s))
    /\ (login s = false -> identity s <> None -> refresh s <> "" ->
        (exists e, refreshResult env = Err e) ->
          finalState out = setLogin true (setWait false s)
          /\ Forall (fun es =>
                token (snd es) = token s /\ refresh (snd es) = refresh s
                /\ identity (snd es) = identity s
                /\ expiration (snd es) = expiration s) (traceOf out)).
Proof.
  intros env s Hctx out. subst out.
  destruct s as [tok rt idt ex lg wt].
  unfold iteration. rewrite Hctx. split.
  - intros Hl H. simpl in Hl. subst lg.
    destruct H as [[e He]|(resp & e & Hr & Hp)].
    + unfold backoff, bind, locked, read, tell, ret, finalState, traceOf; simpl.
      rewrite He. simpl.
      split; [reflexivity|]. split.
      * repeat constructor.
      * intros ->. reflexivity.
    + unfold backoff, bind, locked, read, tell, ret, finalState, traceOf; simpl.
      rewrite Hr. simpl. rewrite Hp. simpl.
      split; [reflexivity|]. split.
      * repeat constructor.
      * intros ->. reflexivity.
  - intros Hl Hid Hrt [e He]. simpl in Hl, Hid, Hrt. subst lg.
    destruct idt as [idt|]; [|congruence].
    apply String.eqb_neq in Hrt.
    unfold bind, locked, read, tell, ret, finalState, traceOf; simpl.
    rewrite Hrt, He. simpl.
    destruct e; simpl; (split; [reflexivity|]); repeat constructor.
Qed.

Lemma last_cons {A : Type} (a d : A) (l : list A) : last (a :: l) d = last l a.
Proof.
  revert a d; induction l as [|b l IH]; intros a d; [reflexivity|].
  change (last (a :: b :: l) d) with (last (b :: l) d).
  rewrite !IH. reflexivity.
Qed.

Lemma stateAfter_cons (s : forwardingState) (e : event) (s1 : forwardingState)
    (t : trace) :
  stateAfter s ((e, s1) :: t) = stateAfter s1 t.
Proof. unfold stateAfter. cbn [map snd]. apply last_cons. Qed.

Lemma stateAfter_app (s : forwardingState) (t1 t2 : trace) :
  stateAfter s (t1 ++ t2)%list = stateAfter (stateAfter s t1) t2.
Proof.
  revert s; induction t1 as [|[e s1] t1 IH]; intros s; [reflexivity|].
  cbn [app]. rewrite !stateAfter_cons. apply IH.
Qed.

Lemma tracked_app (t1 t2 : trace) :
  forall s, tracked s t1 -> tracked (stateAfter s t1) t2 -> tracked s (t1 ++ t2)%list.
Proof.
  induction t1 as [|[e s1] t1 IH]; intros s H1 H2; [exact H2|].
  cbn [app tracked] in *. destruct H1 as [H1 H1']. split; [exact H1|].
  apply IH; [exact H1'|]. now rewrite stateAfter_cons in H2.
Qed.

Lemma tracked_firstn (t : trace) :
  forall s n, tracked s t -> tracked s (firstn n t).
Proof.
  induction t as [|[e s1] t IH]; intros s [|n] H; cbn [firstn tracked] in *; auto.
  destruct H as [H H']. split; [exact H|]. now apply IH.
Qed.

(** What a turn of the loop gives back is consistent: its final state is
    the last state of its trace, and the token field changes only at the
    sections that store a login or a refresh. *)
Lemma iteration_tracked (env : Env) (s : forwardingState) :
  finalState (iteration config parseToken env s)
  = stateAfter s (traceOf (iteration config parseToken env s))
  /\ tracked s (traceOf (iteration config parseToken env s)).
Proof.
  destruct s as [tok rt idt ex lg wt].
  unfold iteration, waitStep, backoff, bind, locked, read, tell, ret, finalState,
    traceOf, stateAfter.
  destruct (ctxDone env); [simpl; auto|].
  destruct lg; simpl.
  - destruct (loginResult env) as [resp|e]; simpl.
    + destruct (parseToken (AccessToken resp)) as [[tok' id']|e]; simpl; auto 10.
    + auto 10.
  - destruct idt as [idt|]; simpl; [|auto].
    destruct (String.eqb rt ""); simpl; [auto 10|].
    destruct (refreshResult env) as [[[tok' rt'] ex']|e]; simpl; [auto 10|].
    destruct e; simpl; auto 10.
Qed.

Lemma run_tracked (envs : list Env) :
  forall s,
    finalState (run config parseToken envs s)
    = stateAfter s (traceOf (run config parseToken envs s))
    /\ tracked s (traceOf (run config parseToken envs s)).
Proof.
  induction envs as [|env envs IH]; intros s; [simpl; auto|].
  cbn [run]. unfold bind.
  pose proof (iteration_tracked env s) as [F T].
  destruct (iteration config parseToken env s) as [[c s1] t1].
  unfold finalState, traceOf in F, T. simpl in F, T. subst s1.
  destruct c.
  - specialize (IH (stateAfter s t1)). destruct IH as [F2 T2].
    destruct (run config parseToken envs (stateAfter s t1)) as [[c2 s2] t2].
    unfold finalState, traceOf in *. simpl in *.
    rewrite stateAfter_app. split; [exact F2|]. now apply tracked_app.
  - unfold ret, finalState, traceOf. simpl. rewrite app_nil_r. auto.
  - unfold ret, finalState, traceOf. simpl. rewrite app_nil_r. auto.
Qed.

(** Along a tracked trace the token field is the token of the latest
    storing section, or the token it started with. *)
Lemma tracked_lastStored (t : trace) :
  forall s acc d,
    tracked s t ->
    token s = match acc with Some x => x | None => d end ->
    token (stateAfter s t)
    = match lastStored (events t) acc with Some x => x | None => d end.
Proof.
  induction t as [|[e s1] t IH]; intros s acc d T H; [exact H|].
  rewrite stateAfter_cons. cbn [tracked] in T. destruct T as [T1 T2].
  unfold events in *. cbn [map fst lastStored].
  destruct e; cbn [tokenWritten] in T1; apply IH; try exact T2;
    try (rewrite T1; exact H); exact T1.
Qed.

(** C4 (amended): at any point of any run of the renewal loop from its
    initial state, the token a signer reads is the token stored by the
    most recent section that completed a successful login or refresh, or,
    as long as none has completed, the zero token the state was created
    with. *)
Theorem C4_observed_token :
  forall envs n,
    observedToken config parseToken envs n =
    match lastStored (events (firstn n (renewal config parseToken envs))) None with
    | Some t => t
    | None => zeroJWT
    end.
Proof.
  intros envs n. unfold observedToken.
  apply tracked_lastStored; [|reflexivity].
  apply tracked_firstn. unfold renewal.
  exact (proj2 (run_tracked envs initialState)).
Qed.

End Renewal.

(** C4, as stated, fails: while the first login is failing the signer
    reads a token that no login or refresh has stored. *)
Lemma C4_reads_before_first_login :
  ~ observesStoredToken (exampleConfig "" true "Lax") exampleParseToken
      [exampleEnv (Forwarding.Err (External "connection refused"))
         (Forwarding.Err ErrRefreshTokenExpired)] 3.
Proof.
  unfold observesStoredToken. intros [t [H _]]. vm_compute in H. discriminate H.
Qed.

Lemma C3_refresh_failure_needs_login_witness :
  let env := exampleEnv (Forwarding.Err (External "unreachable"))
               (Forwarding.Err ErrRefreshTokenExpired) in
  Forwarding.ctxDone env = false
  /\ Forwarding.login (exampleActive "refresh") = false
  /\ Forwarding.identity (exampleActive "refresh") <> None
  /\ Forwarding.login
       (finalState
          (Forwarding.iteration (exampleConfig "" true "Lax") exampleParseToken env
             (exampleActive "refresh"))) = true.
Proof.
  intros env.
  assert (H1 : Forwarding.ctxDone env = false) by reflexivity.
  assert (H2 : Forwarding.login (exampleActive "refresh") = false) by reflexivity.
  assert (H3 : Forwarding.identity (exampleActive "refresh") <> None)
    by (simpl; discriminate).
  split; [exact H1|]. split; [exact H2|]. split; [exact H3|].
  destruct (C3_refresh_failure_needs_login (exampleConfig "" true "Lax")
              exampleParseToken env (exampleActive "refresh") H1 H2 H3) as [H _].
  destruct (H ltac:(simpl; discriminate) ErrRefreshTokenExpired eq_refl)
    as (_ & _ & G & _).
  exact G.
Defined.

Lemma C10_failures_frame_witness :
  let env := exampleEnv (Forwarding.Err (External "connection refused"))
               (Forwarding.Err ErrRefreshTokenExpired) in
  Forwarding.ctxDone env = false
  /\ finalState
       (Forwarding.iteration (exampleConfig "" true "Lax") exampleParseToken env
          Forwarding.initialState) = Forwarding.initialState.
Proof.
  intros env.
  assert (H1 : Forwarding.ctxDone env = false) by reflexivity.
  split; [exact H1|].
  destruct (C10_failures_frame (exampleConfig "" true "Lax") exampleParseToken env
              Forwarding.initialState H1) as [H _].
  destruct (H eq_refl) as (_ & _ & G).
  - left. exists (External "connection refused"). reflexivity.
  - apply G. reflexivity.
Defined.

(** ** The renewal loop: further properties *)

Section RenewalFacts.

Import Forwarding.

Variable config : Config.
Variable parseToken : string -> result (JWT * Identity).

Lemma iteration_invariant (env : Env) (s : forwardingState) :
  loopInvariant s ->
  (forall p, outcomeOf (iteration config parseToken env s) <> Panic p)
  /\ loopInvariant (finalState (iteration config parseToken env s)).
Proof.
  destruct s as [tok rt idt ex lg wt]. unfold loopInvariant. cbn.
  intros [I1 I2].
  unfold iteration, waitStep, backoff, bind, locked, read, tell, ret, outcomeOf,
    finalState.
  destruct (ctxDone env); [cbn; split; [discriminate|auto]|].
  destruct lg; cbn.
  - destruct (loginResult env) as [resp|e]; cbn.
    + destruct (parseToken (AccessToken resp)) as [[tok' id']|e]; cbn.
      * split; [destruct (cancelledInWait env); discriminate|].
        split; [discriminate|discriminate].
      * split; [destruct (cancelledInBackoff env); discriminate|]. auto.
    + split; [destruct (cancelledInBackoff env); discriminate|]. auto.
  - destruct idt as [idt|]; [|exfalso; now apply I1]. cbn.
    destruct (String.eqb rt ""); cbn.
    + split; [discriminate|]. split; [discriminate|reflexivity].
    + destruct (refreshResult env) as [[[tok' rt'] ex']|e]; cbn.
      * split; [destruct (cancelledInWait env); discriminate|].
        split; [discriminate|discriminate].
      * destruct e; cbn; (split; [discriminate|]); (split; [discriminate|reflexivity]).
Qed.

(** The renewal loop never panics: from the state it is created with,
    every turn that reads the identity finds one, and between turns a
    raised login flag comes with a lowered wait flag. *)
Theorem renewal_never_panics :
  forall envs,
    (forall p, outcomeOf (run config parseToken envs initialState) <> Panic p)
    /\ loopInvariant (finalState (run config parseToken envs initialState)).
Proof.
  assert (G : forall envs s, loopInvariant s ->
            (forall p, outcomeOf (run config parseToken envs s) <> Panic p)
            /\ loopInvariant (finalState (run config parseToken envs s))).
  { induction envs as [|env envs IH]; intros s I.
    - cbn. split; [discriminate|exact I].
    - cbn [run]. unfold bind.
      pose proof (iteration_invariant env s I) as [P I'].
      destruct (iteration config parseToken env s) as [[c s1] t1].
      unfold outcomeOf, finalState in P, I'. cbn in P, I'.
      destruct c.
      + specialize (IH s1 I'). destruct IH as [P2 I2].
        destruct (run config parseToken envs s1) as [[c2 s2] t2].
        unfold outcomeOf, finalState in *. cbn in *. auto.
      + unfold ret, outcomeOf, finalState. cbn. split; [discriminate|exact I'].
      + exfalso. now apply (P p). }
  intros envs. apply G. unfold loopInvariant, initialState. cbn.
  split; [discriminate|reflexivity].
Qed.

(** A login that succeeds stores, in one section, the parsed token, the
    refresh token of the answer, the identity and its expiry, lowers the
    login flag, and then waits on the renewal timer of the new expiry; the
    turn makes one call to the identity provider. *)
Theorem login_success_stores_credentials :
  forall env s resp tok ident,
    ctxDone env = false ->
    login s = true ->
    loginResult env = Ok resp ->
    parseToken (AccessToken resp) = Ok (tok, ident) ->
    let out := iteration config parseToken env s in
    finalState out
      = mkState tok (RefreshToken resp) (Some ident) (ExpiresAt ident) false true
    /\ outcomeOf out = (if cancelledInWait env then Return else Continue)
    /\ filter isSleep (events (traceOf out)) = [SleepUntilRenewal (ExpiresAt ident)]
    /\ filter isNetworkCall (events (traceOf out))
       = [CallUserCredsToken (ForwardingUsername config) (ForwardingPassword config)].
Proof.
  intros env s resp tok ident Hctx Hl Hr Hp out. subst out.
  destruct s as [tok0 rt idt ex lg wt]. cbn in Hl. subst lg.
  unfold iteration, waitStep, bind, locked, read, tell, ret, outcomeOf, finalState,
    traceOf, events.
  rewrite Hctx. cbn. rewrite Hr. cbn. rewrite Hp. cbn.
  repeat split; reflexivity.
Qed.

(** A refresh that succeeds stores the new token and expiry, keeps the
    identity, replaces the refresh token only when the answer carries one,
    and then waits on the renewal timer of the new expiry. *)
Theorem refresh_success_keeps_identity :
  forall env s tok newRefreshToken exp,
    ctxDone env = false ->
    login s = false ->
    identity s <> None ->
    refresh s <> ""%string ->
    refreshResult env = Ok (tok, newRefreshToken, exp) ->
    let out := iteration config parseToken env s in
    finalState out
      = mkState tok
          (if String.eqb newRefreshToken "" then refresh s else newRefreshToken)
          (identity s) exp false true
    /\ outcomeOf out = (if cancelledInWait env then Return else Continue)
    /\ filter isSleep (events (traceOf out)) = [SleepUntilRenewal exp]
    /\ filter isNetworkCall (events (traceOf out)) = [CallGetRefreshedToken (refresh s)].
Proof.
  intros env s tok nrt exp Hctx Hl Hid Hrt Hr out. subst out.
  destruct s as [tok0 rt idt ex lg wt]. cbn in Hl, Hid, Hrt. subst lg.
  destruct idt as [idt|]; [|congruence].
  apply String.eqb_neq in Hrt.
  unfold iteration, waitStep, bind, locked, read, tell, ret, outcomeOf, finalState,
    traceOf, events.
  rewrite Hctx. cbn. rewrite Hrt. cbn. rewrite Hr. cbn.
  destruct (String.eqb nrt ""); cbn; repeat split; reflexivity.
Qed.


Lemma answered_mono (envs : list Env) (env : Env) (e : event) :
  answered parseToken envs e -> answered parseToken (env :: envs) e.
Proof.
  destruct e; cbn; auto.
  - intros (env' & resp & H & R); exists env', resp. cbn. tauto.
  - intros (env' & H & R); exists env'. cbn. tauto.
Qed.

Lemma iteration_answered (env : Env) (s : forwardingState) :
  Forall (answered parseToken [env])
    (events (traceOf (iteration config parseToken env s))).
Proof.
  destruct s as [tok rt idt ex lg wt].
  unfold iteration, waitStep, backoff, bind, locked, read, tell, ret, traceOf, events.
  destruct (ctxDone env); [cbn; constructor|].
  destruct lg; cbn.
  - destruct (loginResult env) as [resp|e] eqn:R; cbn.
    + destruct (parseToken (AccessToken resp)) as [[tok' id']|e] eqn:P; cbn;
        repeat apply Forall_cons; try apply Forall_nil; cbn; auto.
      exists env, resp. cbn. auto.
    + repeat apply Forall_cons; try apply Forall_nil; cbn; auto.
  - destruct idt as [idt|]; cbn;
      [|repeat apply Forall_cons; try apply Forall_nil; cbn; auto].
    destruct (String.eqb rt ""); cbn.
    + repeat apply Forall_cons; try apply Forall_nil; cbn; auto.
    + destruct (refreshResult env) as [[[tok' rt'] ex']|e] eqn:R; cbn.
      * repeat apply Forall_cons; try apply Forall_nil; cbn; auto.
        exists env. cbn. auto.
      * destruct e; cbn; repeat apply Forall_cons; try apply Forall_nil; cbn; auto.
Qed.

(** Nothing is stored that was not answered: in every run, from any state,
    each section that stores a login holds the token and identity parsed
    from the access token that a login of the run answered with, together
    with its refresh token, and each section that stores a refresh holds
    what a refresh of the run answered with. *)
Theorem stored_tokens_were_answered :
  forall envs s,
    Forall (answered parseToken envs)
      (events (traceOf (run config parseToken envs s))).
Proof.
  induction envs as [|env envs IH]; intros s; [constructor|].
  cbn [run]. unfold bind.
  pose proof (iteration_answered env s) as A.
  destruct (iteration config parseToken env s) as [[c s1] t1].
  unfold traceOf, events in *. cbn in A.
  assert (A' : Forall (answered parseToken (env :: envs)) (map fst t1)).
  { eapply Forall_impl; [|exact A]. intros e He.
    destruct e; cbn in *; auto.
    - destruct He as (env' & resp & [H|[]] & R). exists env', resp. cbn. tauto.
    - destruct He as (env' & [H|[]] & R). exists env'. cbn. tauto. }
  destruct c.
  - specialize (IH s1).
    destruct (run config parseToken envs s1) as [[c2 s2] t2]. cbn in *.
    rewrite map_app. apply Forall_app. split; [exact A'|].
    eapply Forall_impl; [|exact IH]. intros e. apply answered_mono.
  - unfold ret. cbn. now rewrite app_nil_r.
  - unfold ret. cbn. now rewrite app_nil_r.
Qed.

(** Once a turn finds the context done the loop is over: it returns, and
    the turns the world had still prepared add nothing to the trace and
    change nothing in the state. *)
Theorem cancelled_run_stops :
  forall envs1 env envs2 s,
    ctxDone env = true ->
    traceOf (run config parseToken (envs1 ++ env :: envs2) s)
      = traceOf (run config parseToken envs1 s)
    /\ finalState (run config parseToken (envs1 ++ env :: envs2) s)
       = finalState (run config parseToken envs1 s)
    /\ outcomeOf (run config parseToken (envs1 ++ env :: envs2) s) <> Continue.
Proof.
  intros envs1 env envs2 s Hctx. revert s.
  induction envs1 as [|env1 envs1 IH]; intros s.
  - cbn [app run]. unfold bind, iteration. rewrite Hctx.
    unfold ret, traceOf, finalState, outcomeOf. cbn.
    split; [reflexivity|]. split; [reflexivity|discriminate].
  - cbn [app run]. unfold bind.
    destruct (iteration config parseToken env1 s) as [[c s1] t1].
    destruct c.
    + specialize (IH s1). destruct IH as (T & F & O).
      destruct (run config parseToken (envs1 ++ env :: envs2) s1) as [[c2 s2] t2].
      destruct (run config parseToken envs1 s1) as [[c3 s3] t3].
      unfold traceOf, finalState, outcomeOf in *. cbn in *.
      subst. auto.
    + unfold ret, traceOf, finalState, outcomeOf. cbn.
      split; [reflexivity|]. split; [reflexivity|discriminate].
    + unfold ret, traceOf, finalState, outcomeOf. cbn.
      split; [reflexivity|]. split; [reflexivity|discriminate].
Qed.

End RenewalFacts.

Lemma login_success_stores_credentials_witness :
  let env := exampleEnv (Forwarding.Ok (Forwarding.mkTokenResponse "access" "refresh"))
               (Forwarding.Err ErrRefreshTokenExpired) in
  Forwarding.ctxDone env = false
  /\ Forwarding.login Forwarding.initialState = true
  /\ Forwarding.token
       (finalState
          (Forwarding.iteration (exampleConfig "" true "Lax") exampleParseToken env
             Forwarding.initialState))
     = Forwarding.mkJWT "" [] "access" "" "".
Proof.
  intros env.
  split; [reflexivity|]. split; [reflexivity|].
  destruct (login_success_stores_credentials (exampleConfig "" true "Lax")
              exampleParseToken env Forwarding.initialState
              (Forwarding.mkTokenResponse "access" "refresh")
              (Forwarding.mkJWT "" [] "access" "" "")
              (Forwarding.mkIdentity "subject" "" "svc@example.com" 3600)
              eq_refl eq_refl eq_refl eq_refl) as [H _].
  rewrite H. reflexivity.
Defined.

Lemma refresh_success_keeps_identity_witness :
  let env := exampleEnv (Forwarding.Err (External "unreachable"))
               (Forwarding.Ok (Forwarding.mkJWT "" [] "renewed" "" "", "", 7200)) in
  Forwarding.ctxDone env = false
  /\ Forwarding.login (exampleActive "refresh") = false
  /\ Forwarding.identity (exampleActive "refresh") <> None
  /\ Forwarding.refresh (exampleActive "refresh") <> ""
  /\ Forwarding.refresh
       (finalState
          (Forwarding.iteration (exampleConfig "" true "Lax") exampleParseToken env
             (exampleActive "refresh")))
     = "refresh".
Proof.
  intros env.
  assert (H3 : Forwarding.identity (exampleActive "refresh") <> None)
    by (cbn; discriminate).
  assert (H4 : Forwarding.refresh (exampleActive "refresh") <> "")
    by (cbn; discriminate).
  split; [reflexivity|]. split; [reflexivity|]. split; [exact H3|].
  split; [exact H4|].
  destruct (refresh_success_keeps_identity (exampleConfig "" true "Lax")
              exampleParseToken env (exampleActive "refresh")
              (Forwarding.mkJWT "" [] "renewed" "" "") "" 7200
              eq_refl eq_refl H3 H4 eq_refl) as [H _].
  rewrite H. reflexivity.
Defined.


Lemma cancelled_run_stops_witness :
  let live := exampleEnv (Forwarding.Ok (Forwarding.mkTokenResponse "access" "refresh"))
                (Forwarding.Err ErrRefreshTokenExpired) in
  let done := Forwarding.mkEnv true (Forwarding.Err (External "unreachable"))
                (Forwarding.Err ErrRefreshTokenExpired) false false in
  Forwarding.ctxDone done = true
  /\ outcomeOf
       (Forwarding.run (exampleConfig "" true "Lax") exampleParseToken
          ([live] ++ done :: [live]) Forwarding.initialState)
     <> Forwarding.Continue.
Proof.
  intros live done.
  split; [reflexivity|].
  apply (cancelled_run_stops (exampleConfig "" true "Lax") exampleParseToken [live]
           done [live] Forwarding.initialState eq_refl).
Defined.

(** ** The request signer and the forwarding configuration *)

Section SignerFacts.

Import Forwarding.

Lemma HeaderGet_set_same (h : list (string * string)) (key value : string) :
  HeaderGet (HeaderSet h key value) key = value.
Proof. unfold HeaderGet, HeaderSet. cbn. now rewrite String.eqb_refl. Qed.

Lemma HeaderGet_set_other (h : list (string * string)) (key value k : string) :
  k <> key -> HeaderGet (HeaderSet h key value) k = HeaderGet h k.
Proof.
  intros NE. unfold HeaderGet, HeaderSet. cbn.
  replace (String.eqb key k) with false
    by (symmetry; apply String.eqb_neq; congruence).
  induction h as [|[k' v'] h IH]; [reflexivity|].
  cbn. destruct (String.eqb_spec k' key) as [E|NE']; cbn.
  - subst k'. replace (String.eqb key k) with false
      by (symmetry; apply String.eqb_neq; congruence).
    exact IH.
  - destruct (String.eqb k' k); [reflexivity|exact IH].
Qed.

(** The signer always copies the host into the URL.  When no forwarding
    domain is configured, or the host matches one, it sets the
    authorization header to the bearer form of the token the shared state
    holds at that moment and the agent header to the program name, and
    leaves every other header as it was; otherwise it touches no header. *)
Theorem signer_attaches_current_token :
  forall config containsSubString Encode versionProg state req,
    let out := signer config containsSubString Encode versionProg state req in
    ReqHost out = ReqHost req
    /\ URLHost out = ReqHost req
    /\ if signs config containsSubString (ReqHost req)
       then HeaderGet (ReqHeader out) "Authorization"
            = ("Bearer " ++ Encode (token state))%string
            /\ HeaderGet (ReqHeader out) "X-Forwarded-Agent" = versionProg
            /\ forall k, k <> "Authorization"%string ->
                         k <> "X-Forwarded-Agent"%string ->
                         HeaderGet (ReqHeader out) k = HeaderGet (ReqHeader req) k
       else ReqHeader out = ReqHeader req.
Proof.
  intros config contains Encode prog state req out. subst out.
  assert (T : (Z.of_nat (List.length (ForwardingDomains config)) =? 0)
              || contains (ReqHost req) (ForwardingDomains config)
              = signs config contains (ReqHost req)).
  { unfold signs. destruct (ForwardingDomains config); reflexivity. }
  unfold signer. cbn [ReqHost URLHost ReqHeader]. rewrite T.
  destruct (signs config contains (ReqHost req)); cbn [ReqHost URLHost ReqHeader].
  - split; [reflexivity|]. split; [reflexivity|]. split; [|split].
    + rewrite HeaderGet_set_other by discriminate. apply HeaderGet_set_same.
    + apply HeaderGet_set_same.
    + intros k N1 N2. now rewrite !HeaderGet_set_other.
  - auto.
Qed.

(** [isForwardingValid] accepts a configuration exactly when it names a
    client, passes the discovery check, has a forwarding user name and
    password, and has neither a TLS certificate nor a TLS private key. *)
Theorem isForwardingValid_accepts_iff :
  forall isDiscoveryValid r,
    isForwardingValid isDiscoveryValid r = None
    <-> ClientID r <> ""%string
        /\ isDiscoveryValid r = None
        /\ ForwardingUsername r <> ""%string
        /\ ForwardingPassword r <> ""%string
        /\ TLSCertificate r = ""%string
        /\ TLSPrivateKey r = ""%string.
Proof.
  intros disc r. unfold isForwardingValid.
  destruct (String.eqb_spec (ClientID r) "");
    [split; [discriminate|tauto]|].
  destruct (disc r) as [e|];
    [split; [discriminate|intros (_ & H & _); discriminate]|].
  destruct (String.eqb_spec (ForwardingUsername r) "");
    [split; [discriminate|tauto]|].
  destruct (String.eqb_spec (ForwardingPassword r) "");
    [split; [discriminate|tauto]|].
  destruct (String.eqb_spec (TLSCertificate r) ""); cbn;
    [|split; [discriminate|tauto]].
  destruct (String.eqb_spec (TLSPrivateKey r) ""); cbn;
    [|split; [discriminate|tauto]].
  tauto.
Qed.

End SignerFacts.

(** ** The error responses *)

Section ResponseFacts.

Import Forwarding Responses.


End ResponseFacts.


(** ** The identity extractor *)

Section Extraction.

Import Forwarding Identity.

Variable claimPreferredName : string.
Variable claimAudience : string.
Variable claimRealmAccess : string.
Variable claimResourceAccess : string.
Variable claimResourceRoles : string.
Variable claimGroups : string.
Variable tokenClaims : JWT -> Claims + string.
Variable IdentityFromClaims : Claims -> Forwarding.Identity + string.
Variable render : value -> string.

(** [StringClaim] finds a value exactly when the claim is a string. *)
Lemma StringClaim_found (c : Claims) (key : string) :
  (exists v, StringClaim c key = (v, true, None)) <-> claimAsString c key.
Proof.
  unfold StringClaim, claimAsString. split.
  - intros [v H]. destruct (lookup c key) as [[]|]; try discriminate. eauto.
  - intros [v H]. rewrite H. eauto.
Qed.

(** [StringsClaim] finds a value exactly when the claim is a list of
    strings. *)
Lemma StringsClaim_found (c : Claims) (key : string) (l : list string) :
  StringsClaim c key = (l, true, None) <-> claimAsStringList c key l.
Proof.
  unfold StringsClaim, claimAsStringList. split.
  - intros H. destruct (lookup c key) as [[]|]; try discriminate.
    + injection H as <-. now left.
    + right. destruct (stringsOf l0) eqn:E; try discriminate.
      injection H as <-. eauto.
  - intros [H|[vs [H E]]]; rewrite H; [reflexivity|]. now rewrite E.
Qed.

(** C9: once the claims of the token decode and carry an identity,
    [extractIdentity] fails with [ErrNoTokenAudience] exactly when the
    audience claim is present neither as a string nor as a list of strings;
    a realm-access claim, or a resource-access entry, of any other shape
    than an object holding a role list contributes no role, and no shape of
    these claims makes the extraction fail; an error from reading the
    groups claim is returned as it is. *)
Theorem C9_extract_identity_failures :
  forall token claims identity,
    tokenClaims token = inl claims ->
    IdentityFromClaims claims = inl identity ->
    let extracted :=
      extractIdentity claimPreferredName claimAudience claimRealmAccess
        claimResourceAccess claimResourceRoles claimGroups tokenClaims
        IdentityFromClaims render token in
    let hasAudience :=
      claimAsString claims claimAudience
      \/ exists l, claimAsStringList claims claimAudience l in
    (extracted = Err ErrNoTokenAudience <-> ~ hasAudience)
    /\ (~ holdsRoleList claimResourceRoles (lookup claims claimRealmAccess) ->
        forall acc, realmRoles claimRealmAccess claimResourceRoles render claims acc = acc)
    /\ (forall name entry acc,
          ~ holdsRoleList claimResourceRoles (Some entry) ->
          clientRolesOf claimResourceRoles render name entry acc = acc)
    /\ (hasAudience ->
        forall groups found,
          StringsClaim claims claimGroups = (groups, found, None) ->
          exists ctx,
            extracted = Ok ctx
            /\ Identity.groups ctx = groups
            /\ roles ctx =
                clientRoles claimResourceAccess claimResourceRoles render claims
                  (realmRoles claimRealmAccess claimResourceRoles render claims []))
    /\ (hasAudience ->
        forall groups found err,
          StringsClaim claims claimGroups = (groups, found, Some err) ->
          extracted = Err err).
Proof.
  intros token claims identity Hc Hi extracted hasAudience.
  assert (Aud :
    (hasAudience /\ exists auds,
       (match StringClaim claims claimAudience with
        | (aud, true, None) => Ok [aud]
        | _ => match StringsClaim claims claimAudience with
               | (aud, true, None) => Ok aud
               | _ => Err ErrNoTokenAudience
               end
        end) = Ok auds)
    \/ (~ hasAudience /\
        (match StringClaim claims claimAudience with
         | (aud, true, None) => Ok [aud]
         | _ => match StringsClaim claims claimAudience with
                | (aud, true, None) => Ok aud
                | _ => Err ErrNoTokenAudience
                end
         end) = @Err (list string) ErrNoTokenAudience)).
  { subst hasAudience. unfold claimAsString, claimAsStringList, StringClaim, StringsClaim.
    destruct (lookup claims claimAudience) as [[v|l|vs|m|o]|].
    - left. split; eauto.
    - left. split; eauto.
    - destruct (stringsOf vs) as [l|] eqn:E.
      + left. split; eauto 10.
      + right. split; [|reflexivity].
        intros [[v H]|[l [H|[vs' [H E']]]]]; try discriminate.
        injection H as <-. congruence.
    - right. split; [|reflexivity].
      intros [[v H]|[l [H|[vs' [H E']]]]]; discriminate.
    - right. split; [|reflexivity].
      intros [[v H]|[l [H|[vs' [H E']]]]]; discriminate.
    - right. split; [|reflexivity].
      intros [[v H]|[l [H|[vs' [H E']]]]]; discriminate. }
  subst extracted. unfold extractIdentity. rewrite Hc, Hi.
  split; [|split; [|split; [|split]]].
  - destruct Aud as [[HA [auds E]]|[HA E]]; rewrite E.
    + split; [|tauto]. intros H. exfalso.
      destruct (StringsClaim claims claimGroups) as [[g f] [e|]] eqn:G;
        [|discriminate].
      injection H as ->.
      unfold StringsClaim in G.
      destruct (lookup claims claimGroups) as [[v|l|vs|m|o]|]; try discriminate.
      destruct (stringsOf vs); discriminate.
    + tauto.
  - intros H acc. unfold realmRoles.
    destruct (lookup claims claimRealmAccess) as [[v|l|vs|m|o]|]; try reflexivity.
    destruct (lookup m claimResourceRoles) as [[v|l|vs|m'|o]|] eqn:E; try reflexivity.
    exfalso. apply H. exists m, vs. auto.
  - intros name entry acc H. unfold clientRolesOf.
    destruct entry as [v|l|vs|m|o]; try reflexivity.
    destruct (lookup m claimResourceRoles) as [[v|l|vs|m'|o]|] eqn:E; try reflexivity.
    exfalso. apply H. exists m, vs. auto.
  - intros HA groups found G.
    destruct Aud as [[_ [auds E]]|[HA' _]]; [|tauto].
    rewrite E, G. eexists. split; [reflexivity|]. split; reflexivity.
  - intros HA groups found err G.
    destruct Aud as [[_ [auds E]]|[HA' _]]; [|tauto].
    rewrite E, G. reflexivity.
Qed.

End Extraction.

Lemma C9_extract_identity_failures_witness :
  let claims :=
    [("sub", Identity.VString "subject");
     ("realm_access", Identity.VString "not an object");
     ("groups", Identity.VSlice [Identity.VString "admins"])] in
  let tokenClaims := fun _ : Forwarding.JWT =>
    @inl Identity.Claims string claims in
  let IdentityFromClaims := fun _ : Identity.Claims =>
    @inl Forwarding.Identity string
      (Forwarding.mkIdentity "subject" "" "svc@example.com" 3600) in
  tokenClaims Forwarding.zeroJWT = inl claims
  /\ IdentityFromClaims claims
     = inl (Forwarding.mkIdentity "subject" "" "svc@example.com" 3600)
  /\ Identity.extractIdentity "preferred_username" "aud" "realm_access"
       "resource_access" "roles" "groups" tokenClaims IdentityFromClaims
       (fun _ => "?") Forwarding.zeroJWT
     = Forwarding.Err ErrNoTokenAudience.
Proof.
  intros claims tokenClaims IdentityFromClaims.
  split; [reflexivity|]. split; [reflexivity|].
  apply (C9_extract_identity_failures "preferred_username" "aud" "realm_access"
           "resource_access" "roles" "groups" tokenClaims IdentityFromClaims
           (fun _ => "?") Forwarding.zeroJWT claims
           (Forwarding.mkIdentity "subject" "" "svc@example.com" 3600)
           eq_refl eq_refl).
  intros [[v H]|[l [H|[vs [H _]]]]]; discriminate H.
Defined.

(** ** The identity extractor: further properties *)

Section ExtractionFacts.

Import Forwarding Identity.

Variable claimPreferredName : string.
Variable claimAudience : string.
Variable claimRealmAccess : string.
Variable claimResourceAccess : string.
Variable claimResourceRoles : string.
Variable claimGroups : string.
Variable tokenClaims : JWT -> Claims + string.
Variable IdentityFromClaims : Claims -> Forwarding.Identity + string.
Variable render : value -> string.

Lemma realmRoles_closed (claims : Claims) (acc : list string) :
  realmRoles claimRealmAccess claimResourceRoles render claims acc
  = (acc ++ roleListOf claimResourceRoles (sprintS render)
              (lookup claims claimRealmAccess))%list.
Proof.
  unfold realmRoles, roleListOf.
  destruct (lookup claims claimRealmAccess) as [[v|l|vs|m|o]|];
    rewrite ?app_nil_r; try reflexivity.
  destruct (lookup m claimResourceRoles) as [[v|l|vs|m'|o]|];
    rewrite ?app_nil_r; reflexivity.
Qed.

Lemma clientRolesOf_closed (name : string) (entry : value) (acc : list string) :
  clientRolesOf claimResourceRoles render name entry acc
  = (acc ++ roleListOf claimResourceRoles
              (fun r => (name ++ ":" ++ sprintS render r)%string) (Some entry))%list.
Proof.
  unfold clientRolesOf, roleListOf.
  destruct entry as [v|l|vs|m|o]; rewrite ?app_nil_r; try reflexivity.
  destruct (lookup m claimResourceRoles) as [[v|l|vs|m'|o]|];
    rewrite ?app_nil_r; reflexivity.
Qed.

Lemma clientRoles_fold (accesses : list (string * value)) :
  forall acc,
    fold_left
      (fun acc entry =>
         clientRolesOf claimResourceRoles render (fst entry) (snd entry) acc)
      accesses acc
    = (acc ++ flat_map (fun entry =>
                roleListOf claimResourceRoles
                  (fun r => (fst entry ++ ":" ++ sprintS render r)%string)
                  (Some (snd entry))) accesses)%list.
Proof.
  induction accesses as [|e accesses IH]; intros acc; cbn [fold_left flat_map].
  - now rewrite app_nil_r.
  - rewrite IH, clientRolesOf_closed. now rewrite <- app_assoc.
Qed.

(** What a successful extraction holds: subject, email and expiry of the
    identity of the claims; the claims and the token themselves; the
    preferred name when that claim is a string and the email otherwise,
    also as the name; the audience as a singleton when it is a string and
    as the list when it is a list; the realm roles followed by the client
    roles written [client:role]; and the origin flag of a cookie. *)
Theorem extractIdentity_success_fields :
  forall token ctx,
    extractIdentity claimPreferredName claimAudience claimRealmAccess
      claimResourceAccess claimResourceRoles claimGroups tokenClaims
      IdentityFromClaims render token = Ok ctx ->
    exists claims identity,
      tokenClaims token = inl claims
      /\ IdentityFromClaims claims = inl identity
      /\ id ctx = ID identity /\ email ctx = Email identity
      /\ expiresAt ctx = ExpiresAt identity
      /\ Identity.claims ctx = claims /\ Identity.token ctx = token
      /\ name ctx = preferredName ctx
      /\ preferredName ctx
         = match lookup claims claimPreferredName with
           | Some (VString n) => n
           | _ => Email identity
           end
      /\ (forall a, lookup claims claimAudience = Some (VString a) ->
                    audiences ctx = [a])
      /\ (forall l, claimAsStringList claims claimAudience l -> audiences ctx = l)
      /\ roles ctx
         = rolesOfClaims claimRealmAccess claimResourceAccess claimResourceRoles
             render claims
      /\ isCookie ctx = true.
Proof.
  intros token ctx. unfold extractIdentity.
  destruct (tokenClaims token) as [claims|e] eqn:Ec; [|discriminate].
  destruct (IdentityFromClaims claims) as [identity|e] eqn:Ei; [|discriminate].
  intros H. exists claims, identity.
  split; [reflexivity|]. split; [exact Ei|].
  assert (R : clientRoles claimResourceAccess claimResourceRoles render claims
                (realmRoles claimRealmAccess claimResourceRoles render claims [])
              = rolesOfClaims claimRealmAccess claimResourceAccess
                  claimResourceRoles render claims).
  { unfold clientRoles, rolesOfClaims. rewrite realmRoles_closed. cbn [app].
    destruct (lookup claims claimResourceAccess) as [[v|l|vs|m|o]|];
      rewrite ?app_nil_r; try reflexivity.
    apply clientRoles_fold. }
  cbv zeta in H. rewrite R in H. clear R.
  assert (P : match StringClaim claims claimPreferredName with
              | (n, true, None) => n
              | _ => Email identity
              end
              = match lookup claims claimPreferredName with
                | Some (VString n) => n
                | _ => Email identity
                end).
  { unfold StringClaim.
    destruct (lookup claims claimPreferredName) as [[v|l|vs|m|o]|]; reflexivity. }
  rewrite P in H. clear P.
  unfold StringClaim, StringsClaim, claimAsStringList in *.
  destruct (lookup claims claimAudience) as [[a|l|vs|m|o]|]; try discriminate H.
  - destruct (lookup claims claimGroups) as [[g|g|g|g|g]|]; try discriminate H;
      try (destruct (stringsOf g); try discriminate H);
      injection H as <-; cbn;
      repeat split; try reflexivity;
      try (intros a' E; now injection E as <-);
      try (intros ? [E|[? [E _]]]; discriminate E).
  - destruct (lookup claims claimGroups) as [[g|g|g|g|g]|]; try discriminate H;
      try (destruct (stringsOf g); try discriminate H);
      injection H as <-; cbn;
      repeat split; try reflexivity;
      try (intros a' E; discriminate E);
      try (intros ? [E|[? [E _]]]; [now injection E as <- | discriminate E]).
  - destruct (stringsOf vs) as [l|] eqn:S; try discriminate H.
    destruct (lookup claims claimGroups) as [[g|g|g|g|g]|]; try discriminate H;
      try (destruct (stringsOf g); try discriminate H);
      injection H as <-; cbn;
      repeat split; try reflexivity;
      try (intros a' E; discriminate E);
      try (intros ? [E|[? [E S']]];
           [discriminate E | injection E as <-; congruence]).
Qed.

(** An extraction fails either with [ErrNoTokenAudience] or with an error
    made outside the package (the decoder's, the identity reader's, or the
    claim reader's on the groups claim): never with another of the
    package's own errors. *)
Theorem extractIdentity_errors_are_typed :
  forall token e,
    extractIdentity claimPreferredName claimAudience claimRealmAccess
      claimResourceAccess claimResourceRoles claimGroups tokenClaims
      IdentityFromClaims render token = Err e ->
    e = ErrNoTokenAudience \/ exists msg, e = External msg.
Proof.
  intros token e. unfold extractIdentity.
  destruct (tokenClaims token) as [claims|e0];
    [|intros H; injection H as <-; eauto].
  destruct (IdentityFromClaims claims) as [identity|e0];
    [|intros H; injection H as <-; eauto].
  unfold StringClaim, StringsClaim.
  destruct (lookup claims claimAudience) as [[a|l|vs|m|o]|];
    try (intros H; injection H as <-; now left);
    try (destruct (stringsOf vs); [|intros H; injection H as <-; now left]);
    destruct (lookup claims claimGroups) as [[g|g|g|g|g]|];
    try (destruct (stringsOf g));
    intros H; try discriminate H; injection H as <-; eauto.
Qed.

End ExtractionFacts.

Lemma extractIdentity_errors_are_typed_witness :
  let tokenClaims := fun _ : Forwarding.JWT =>
    @inl Identity.Claims string [("sub", Identity.VString "subject")] in
  let IdentityFromClaims := fun _ : Identity.Claims =>
    @inl Forwarding.Identity string
      (Forwarding.mkIdentity "subject" "" "svc@example.com" 3600) in
  Identity.extractIdentity "preferred_username" "aud" "realm_access"
    "resource_access" "roles" "groups" tokenClaims IdentityFromClaims
    (fun _ => "?") Forwarding.zeroJWT = Forwarding.Err ErrNoTokenAudience
  /\ (ErrNoTokenAudience = ErrNoTokenAudience
      \/ exists msg, ErrNoTokenAudience = External msg).
Proof.
  intros tokenClaims IdentityFromClaims.
  split; [reflexivity|].
  apply (extractIdentity_errors_are_typed "preferred_username" "aud" "realm_access"
           "resource_access" "roles" "groups" tokenClaims IdentityFromClaims
           (fun _ => "?") Forwarding.zeroJWT ErrNoTokenAudience eq_refl).
Defined.

Lemma extractIdentity_success_fields_witness :
  let claims :=
    [("sub", Identity.VString "subject");
     ("aud", Identity.VString "gatekeeper");
     ("realm_access",
      Identity.VMap [("roles", Identity.VSlice [Identity.VString "admin"])]);
     ("resource_access",
      Identity.VMap
        [("app", Identity.VMap
                   [("roles", Identity.VSlice [Identity.VString "read";
                                               Identity.VString "write"])]);
         ("broken", Identity.VString "not an object")])] in
  let tokenClaims := fun _ : Forwarding.JWT =>
    @inl Identity.Claims string claims in
  let IdentityFromClaims := fun _ : Identity.Claims =>
    @inl Forwarding.Identity string
      (Forwarding.mkIdentity "subject" "" "svc@example.com" 3600) in
  exists ctx,
    Identity.extractIdentity "preferred_username" "aud" "realm_access"
      "resource_access" "roles" "groups" tokenClaims IdentityFromClaims
      (fun _ => "?") Forwarding.zeroJWT = Forwarding.Ok ctx
    /\ Identity.roles ctx = ["admin"; "app:read"; "app:write"]
    /\ Identity.preferredName ctx = "svc@example.com".
Proof.
  intros claims tokenClaims IdentityFromClaims.
  eexists. split; [reflexivity|].
  destruct (extractIdentity_success_fields "preferred_username" "aud"
              "realm_access" "resource_access" "roles" "groups" tokenClaims
              IdentityFromClaims (fun _ => "?") Forwarding.zeroJWT _ eq_refl)
    as (c & i & Hc & Hi & _ & _ & _ & _ & _ & _ & Hp & _ & _ & Hr & _).
  injection Hc as <-. injection Hi as <-.
  split; [rewrite Hr | rewrite Hp]; reflexivity.
Defined.
